(** * ETL benchmark (pandas vs. dask): a shallow embedding of [etl_benchmark.py]

    The script provisions a CSV dataset, runs one filter + group-by-mean
    pipeline eagerly and once more over a partitioned view of the same file,
    and prints a two-row comparison table.

    Modelling choices, all visible in the definitions below:
    - a [float64] value is the rational it denotes ([Qc]), and every value
      cell of a file holds a number; the libraries' float sum and division
      are a parameter ([Numerics]): a statement on the numbers a pipeline
      returns is made for every arithmetic whose operations on the file at
      hand are accurate to a relative error, so it says nothing of a sum
      that overflows; [main] is embedded with the arithmetic [exact];
    - a category cell that pandas reads as a missing value ([na_values])
      belongs to no group of the eager pipeline, and to the group "<NA>"
      of the partitioned one;
    - the file system is a finite map from path strings to nodes;
    - the wall clock, the resident-memory counter, the random generator and
      the block splitter of the partitioned reader are oracles ([Oracle]):
      the program reads them, it does not compute them;
    - a Python exception is a value of [error], threaded by the monad [M];
    - logging writes to standard error only and is left out. *)

From Stdlib Require Import QArith Qcanon Qcabs Qround ZArith Lia Lqa Ascii String.
From stdpp Require Import base numbers list strings gmap.

Local Open Scope Z_scope.

(** ** Exceptions *)

Inductive error :=
  | FileNotFoundError
  | FileExistsError
  | IsADirectoryError
  | NotADirectoryError
  | RecursionError
  | ValueError
  | KeyError
  | ParserError
  | NotImplementedError.

Inductive result (A : Type) :=
  | Ok (a : A)
  | Raise (e : error).
Arguments Ok {A} a.
Arguments Raise {A} e.

Definition is_ok {A} (r : result A) : bool :=
  match r with Ok _ => true | Raise _ => false end.

(** ** Data model *)

(** One line of the dataset: the four columns built in [generate_dataset]. *)
Record Row := mkRow {
  user_id : Z;
  category : string;
  value : Qc;
  timestamp : Z  (* seconds since the Unix epoch *)
}.

(** A data frame: named columns over a sequence of rows. *)
Record Frame := mkFrame {
  columns : list string;
  rows_of : list Row
}.

(** The text of a CSV file, line by line and cell by cell. *)
Inductive cell :=
  | CInt (n : Z)
  | CText (s : string)
  | CReal (q : Qc)
  | CInstant (t : Z).

Definition row_cells (r : Row) : list cell :=
  [CInt (user_id r); CText (category r); CReal (value r); CInstant (timestamp r)].

(** [to_csv(path, index=False)]: the header line, then one line per row. *)
Definition csv_lines (df : Frame) : list (list cell) :=
  (CText <$> columns df) :: (row_cells <$> rows_of df).

(** The result of [groupby(...)[...].mean()]: category |-> mean. *)
Abbreviation Series := (gmap string Qc).

(** ** Paths ([posixpath]) *)

Definition is_sep (c : ascii) : bool :=
  if decide (c = "/"%char) then true else false.

Fixpoint has_sep (s : string) : bool :=
  match s with
  | EmptyString => false
  | String c s' => is_sep c || has_sep s'
  end.

Fixpoint all_sep (s : string) : bool :=
  match s with
  | EmptyString => true
  | String c s' => is_sep c && all_sep s'
  end.

(** [(p[:i], p[i:])] for [i = p.rfind('/') + 1]. *)
Fixpoint cut_last_sep (p : string) : string * string :=
  match p with
  | EmptyString => (EmptyString, EmptyString)
  | String c p' =>
      if has_sep p' then
        let '(h, t) := cut_last_sep p' in (String c h, t)
      else if is_sep c then (String c EmptyString, p')
      else (EmptyString, String c p')
  end.

(** [s.rstrip('/')]. *)
Fixpoint rstrip_sep (s : string) : string :=
  match s with
  | EmptyString => EmptyString
  | String c s' =>
      match rstrip_sep s' with
      | EmptyString => if is_sep c then EmptyString else String c EmptyString
      | r => String c r
      end
  end.

Definition is_empty (s : string) : bool :=
  match s with EmptyString => true | _ => false end.

(** [posixpath.split]:
    [if head and head != '/'*len(head): head = head.rstrip('/')]. *)
Definition path_split (p : string) : string * string :=
  let '(head, tail) := cut_last_sep p in
  (if negb (is_empty head) && negb (all_sep head) then rstrip_sep head else head,
   tail).

Definition dirname (p : string) : string := fst (path_split p).

(** ** File system *)

Inductive node :=
  | Dir
  | File (data : option Frame).  (* [None]: not parseable as a CSV table *)

Abbreviation FS := (gmap string node).

(** The names between the separators of a path. *)
Fixpoint segments (p : string) : list string :=
  match p with
  | EmptyString => [EmptyString]
  | String c p' =>
      if is_sep c then EmptyString :: segments p'
      else match segments p' with
           | s :: ss => String c s :: ss
           | [] => [String c EmptyString]
           end
  end.

Definition is_dot (s : string) : bool :=
  match s with String "." EmptyString => true | _ => false end.

Definition starts_with_sep (p : string) : bool :=
  match p with String c _ => is_sep c | EmptyString => false end.

Fixpoint join_sep (names : list string) : string :=
  match names with
  | [] => EmptyString
  | [n] => n
  | n :: ns => n +:+ String "/" (join_sep ns)
  end.

(** The key under which the map holds a path: separators that repeat or
    trail and the name "." do not matter to the kernel.  Parent references
    ("..") and symbolic links are not resolved: they are ordinary names
    here. *)
Definition resolve (p : string) : string :=
  let names :=
    filter (fun s => negb (is_empty s) && negb (is_dot s) = true) (segments p) in
  (if starts_with_sep p then "/" else "") +:+ join_sep names.

(** A path that can only name a directory: it ends in a separator or in
    the name ".". *)
Definition names_directory (p : string) : bool :=
  match last (segments p) with
  | Some s => is_empty s || is_dot s
  | None => false
  end.

(** [os.stat]: the root and the working directory are always there, the
    empty name never is. *)
Definition stat (fs : FS) (p : string) : result node :=
  if is_empty p then Raise FileNotFoundError
  else
    let key := resolve p in
    if is_empty key || all_sep key then Ok Dir
    else match fs !! key with
         | None => Raise FileNotFoundError
         | Some Dir => Ok Dir
         | Some (File d) =>
             if names_directory p then Raise NotADirectoryError else Ok (File d)
         end.

(** [os.path.exists], [os.path.isdir]. *)
Definition path_exists (fs : FS) (p : string) : bool := is_ok (stat fs p).

Definition isdir (fs : FS) (p : string) : bool :=
  match stat fs p with Ok Dir => true | _ => false end.

(** The directory that would hold a new entry [p] must be there. *)
Definition parent_check (fs : FS) (p : string) : result unit :=
  let d := dirname (resolve p) in
  if is_empty d then Ok tt
  else match stat fs d with
       | Ok Dir => Ok tt
       | Ok (File _) => Raise NotADirectoryError
       | Raise e => Raise e
       end.

(** [open(path, "w")]: may the file be created or truncated? *)
Definition open_w (fs : FS) (p : string) : result unit :=
  match stat fs p with
  | Ok Dir => Raise IsADirectoryError
  | Raise NotADirectoryError => Raise NotADirectoryError
  | Ok (File _) => Ok tt
  | Raise _ =>
      if is_empty p then Raise FileNotFoundError
      else if names_directory p then Raise IsADirectoryError
      else parent_check fs p
  end.

(** [open(path)] followed by parsing. *)
Definition read_csv (fs : FS) (p : string) : result Frame :=
  match stat fs p with
  | Raise e => Raise e
  | Ok Dir => Raise IsADirectoryError
  | Ok (File None) => Raise ParserError
  | Ok (File (Some df)) => Ok df
  end.

(** ** The process and its environment *)

(** One row of the comparison table. *)
Record Measurement := mkMeasurement {
  framework : string;
  execution_time : Qc;   (* "Execution Time (sec)" *)
  memory_usage : Qc      (* "Memory Usage (MB)" *)
}.

(** The two titles [main] prints, each after an empty line. *)
Definition performance_title : string :=
  String "010" "=== Performance Comparison ===".

Definition aggregation_title : string :=
  String "010" "=== Aggregation Output (Sample) ===".

(** What [print] receives. *)
Inductive printed :=
  | PText (s : string)
  | PTable (t : list Measurement)
  | PSeries (s : Series).

(** What the program reads from outside: the [n]-th reading of [time.time()],
    the [n]-th sample of the resident set size in bytes, the [n]-th draw of
    the random generator, and what [dd.read_csv] makes of a [blocksize]: an
    exception when it cannot read it as a number of bytes, otherwise the way
    it cuts the rows of a file into blocks. *)
Record Oracle := mkOracle {
  wall_clock : nat -> Qc;
  rss_bytes : nat -> N;
  rand_bits : nat -> N;
  rand_normal : nat -> Qc;
  read_blocks : string -> result (list Row -> list (list Row))
}.

(** What the program changes. *)
Record World := mkWorld {
  fs : FS;
  clock_reads : nat;
  rss_reads : nat;
  rng_draws : nat;
  stdout : list printed
}.

Definition set_fs (f : FS) (w : World) : World :=
  mkWorld f (clock_reads w) (rss_reads w) (rng_draws w) (stdout w).

(** ** A state and exception monad *)

Definition M (A : Type) : Type := World -> World * result A.

Definition ret {A} (a : A) : M A := fun w => (w, Ok a).

Definition raise {A} (e : error) : M A := fun w => (w, Raise e).

Definition bind {A B} (m : M A) (k : A -> M B) : M B :=
  fun w =>
    match m w with
    | (w', Ok a) => k a w'
    | (w', Raise e) => (w', Raise e)
    end.

(** [try: m except: h]; the state reached when the exception was raised is
    kept. *)
Definition try_except {A} (m : M A) (h : error -> M A) : M A :=
  fun w =>
    match m w with
    | (w', Ok a) => (w', Ok a)
    | (w', Raise e) => h e w'
    end.

Definition gets {A} (f : World -> A) : M A := fun w => (w, Ok (f w)).

Definition modify (f : World -> World) : M unit := fun w => (f w, Ok tt).

Definition lift {A} (r : result A) : M A := fun w => (w, r).

Notation "x <- m ;; k" := (bind m (fun x => k))
  (at level 100, m at next level, right associativity).
Notation "m ;;; k" := (bind m (fun _ => k))
  (at level 100, right associativity).

(** ** Writing to the file system *)

(** Is there an entry, of any kind, under the key of [p]? *)
Definition occupied (fs : FS) (p : string) : bool :=
  let key := resolve p in
  is_empty key || all_sep key || bool_decide (is_Some (fs !! key)).

Definition ends_with_dot (p : string) : bool :=
  match last (segments p) with
  | Some s => is_dot s
  | None => false
  end.

(** [os.mkdir]: the name must be new and its parent must be there. *)
Definition mkdir (p : string) : M unit :=
  f <- gets fs ;;
  if is_empty p then raise FileNotFoundError
  else if occupied f p then raise FileExistsError
  else if ends_with_dot p then raise FileNotFoundError
  else lift (parent_check f p) ;;;
       modify (set_fs (<[resolve p := Dir]> f)).

(** [os.makedirs(name, exist_ok=exist_ok)], by recursion on [head]; the fuel
    bounds the depth of the recursion. *)
Fixpoint makedirs_fuel (fuel : nat) (name : string) (exist_ok : bool) : M unit :=
  match fuel with
  | O => raise RecursionError
  | S fuel' =>
      let '(head, tail) := path_split name in
      let '(head, tail) :=
        if is_empty tail then path_split head else (head, tail) in
      f <- gets fs ;;
      go_on <-
        (if negb (is_empty head) && negb (is_empty tail)
            && negb (path_exists f head) then
           try_except (makedirs_fuel fuel' head exist_ok)
             (fun e => match e with
                       | FileExistsError => ret tt   (* pass *)
                       | _ => raise e
                       end) ;;;
           (* if tail == curdir: return *)
           ret (negb (bool_decide (tail = "."%string)))
         else ret true) ;;
      if go_on then
        try_except (mkdir name)
          (fun e =>
             f1 <- gets fs ;;
             (* if not exist_ok or not path.isdir(name): raise *)
             if negb exist_ok || negb (isdir f1 name) then raise e else ret tt)
      else ret tt
  end.

Definition makedirs (name : string) (exist_ok : bool) : M unit :=
  makedirs_fuel (S (String.length name)) name exist_ok.

(** [open(path, "w")] followed by writing [df]: creates or truncates. *)
Definition write_csv (p : string) (df : Frame) : M unit :=
  f <- gets fs ;;
  lift (open_w f p) ;;;
  modify (set_fs (<[resolve p := File (Some df)]> f)).

(** ** Numbers *)

Definition Qc_of_nat (n : nat) : Qc := Qc_of_Z (Z.of_nat n).

Definition Qc_half : Qc := Q2Qc (1 # 2).

(** Python's [round(x)]: to the nearest integer, ties to the even one. *)
Definition round_half_even (q : Qc) : Z :=
  let f := Qfloor q in
  match Qccompare (q - Qc_of_Z f) Qc_half with
  | Lt => f
  | Gt => f + 1
  | Eq => if Z.even f then f else f + 1
  end.

(** [round(x, 2)]. *)
Definition round2 (q : Qc) : Qc :=
  (Qc_of_Z (round_half_even (q * Qc_of_Z 100)) / Qc_of_Z 100)%Qc.

Definition Qc_sum (l : list Qc) : Qc := foldr Qcplus 0%Qc l.

(** The arithmetic mean of a non-empty list. *)
Definition mean (l : list Qc) : Qc := (Qc_sum l / Qc_of_nat (length l))%Qc.

(** The float arithmetic of the libraries: the sum of an array, the sum
    that combines the partial sums of the blocks, and the division of a sum
    by a count. *)
Record Numerics := mkNumerics {
  array_sum : list Qc -> Qc;
  combine_sums : list Qc -> Qc;
  divide : Qc -> nat -> Qc
}.

(** Arithmetic without rounding. *)
Definition exact : Numerics :=
  mkNumerics Qc_sum Qc_sum (fun x n => (x / Qc_of_nat n)%Qc).

(** [.mean()] of one group. *)
Definition mean_on (num : Numerics) (l : list Qc) : Qc :=
  divide num (array_sum num l) (length l).

(** ** Data frames *)

(** [df[col]], [df.groupby(col)]: the column must be there. *)
Definition has_column (df : Frame) (col : string) : result unit :=
  if bool_decide (col ∈ columns df) then Ok tt else Raise KeyError.

(** [df[df["value"] > 0]]. *)
Definition positive_value (r : Row) : Prop := (0 < value r)%Qc.

Global Instance positive_value_dec (r : Row) : Decision (positive_value r) :=
  Qc_lt_dec 0%Qc (value r).

Definition keep_positive (rows : list Row) : list Row :=
  filter positive_value rows.

(** The texts [pd.read_csv] reads as a missing value (its default
    [na_values]). *)
Definition na_values : list string :=
  [""; "#N/A"; "#N/A N/A"; "#NA"; "-1.#IND"; "-1.#QNAN"; "-NaN"; "-nan";
   "1.#IND"; "1.#QNAN"; "<NA>"; "N/A"; "NA"; "NULL"; "NaN"; "None"; "n/a";
   "nan"; "null"]%string.

Definition is_na (cell : string) : bool := bool_decide (cell ∈ na_values).

(** The rows whose category is not missing: the only ones a pandas
    [groupby] keeps ([dropna=True]). *)
Definition dropna (rows : list Row) : list Row :=
  filter (fun r => is_na (category r) = false) rows.

(** The key under which the partitioned [groupby] files a row: it keeps the
    rows of missing category, under the missing value, printed "<NA>" (no
    category that is present can read so). *)
Definition na_label (r : Row) : string :=
  if is_na (category r) then "<NA>"%string else category r.

(** The values of each key, in row order. *)
Definition group_by (key : Row -> string) (rows : list Row)
  : gmap string (list Qc) :=
  foldr (fun r g => <[key r := value r :: default [] (g !! key r)]> g) ∅ rows.

(** [groupby("category")["value"]] in pandas. *)
Definition groupby_values (rows : list Row) : gmap string (list Qc) :=
  group_by category (dropna rows).

(** [.mean()] on the groups. *)
Definition groupby_mean_on (num : Numerics) (rows : list Row) : Series :=
  mean_on num <$> groupby_values rows.

Definition groupby_mean (rows : list Row) : Series :=
  groupby_mean_on exact rows.

(** The partitioned group-by-mean: every block yields the sum and the count
    of each of its keys; the tables of the blocks are put together, the
    counts added and the partial sums collected in block order; the mean of
    a key is the combined sum over the total count. *)
Definition chunk_stats_on (num : Numerics) (block : list Row)
  : gmap string (Qc * nat) :=
  (fun vs => (array_sum num vs, length vs)) <$> group_by na_label block.

Definition add_chunk (t : gmap string (Qc * nat))
    (acc : gmap string (list Qc * nat)) : gmap string (list Qc * nat) :=
  merge (fun o a =>
           match o, a with
           | Some sn, Some ssm => Some (sn.1 :: ssm.1, (sn.2 + ssm.2)%nat)
           | Some sn, None => Some ([sn.1], sn.2)
           | None, _ => a
           end) t acc.

Definition blocks_groupby_mean_on (num : Numerics) (blocks : list (list Row))
  : Series :=
  (fun ssm : list Qc * nat => divide num (combine_sums num ssm.1) ssm.2)
    <$> foldr add_chunk ∅ (chunk_stats_on num <$> blocks).

Definition blocks_groupby_mean (blocks : list (list Row)) : Series :=
  blocks_groupby_mean_on exact blocks.

(** [pd.DataFrame({...})] from four columns: the arrays must have one
    length. *)
Definition DataFrame (user_ids : list Z) (categories : list string)
    (values : list Qc) (timestamps : list Z) : result Frame :=
  let n := length user_ids in
  if bool_decide (length categories = n ∧ length values = n
                  ∧ length timestamps = n) then
    Ok (mkFrame ["user_id"; "category"; "value"; "timestamp"]%string
          (zip_with (fun p q => mkRow p.1 p.2 q.1 q.2)
             (zip user_ids categories) (zip values timestamps)))
  else Raise ValueError.

(** [pd.date_range(start, periods=periods, freq="s")]. *)
Definition date_range (start : Z) (periods : Z) : result (list Z) :=
  if periods <? 0 then Raise ValueError
  else Ok ((fun i => start + Z.of_nat i) <$> seq 0 (Z.to_nat periods)).

(** 2023-01-01 00:00:00 in seconds since the epoch. *)
Definition start_2023 : Z := 1672531200.

(** Command-line arguments. *)
Record Args := mkArgs {
  data_path : string;
  rows : Z;
  blocksize : string
}.

Definition default_args : Args :=
  mkArgs "data/large_dataset.csv" 1000000 "128MB".

(** ** The program *)

Section Program.

Variable env : Oracle.

(** [time.time()]. *)
Definition time_time : M Qc :=
  fun w =>
    (mkWorld (fs w) (S (clock_reads w)) (rss_reads w) (rng_draws w) (stdout w),
     Ok (wall_clock env (clock_reads w))).

(** [psutil.Process(os.getpid()).memory_info().rss]. *)
Definition memory_info_rss : M N :=
  fun w =>
    (mkWorld (fs w) (clock_reads w) (S (rss_reads w)) (rng_draws w) (stdout w),
     Ok (rss_bytes env (rss_reads w))).

(** One step of the random generator. *)
Definition next_draw : M nat :=
  fun w =>
    (mkWorld (fs w) (clock_reads w) (rss_reads w) (S (rng_draws w)) (stdout w),
     Ok (rng_draws w)).

Definition print (p : printed) : M unit :=
  modify (fun w =>
    mkWorld (fs w) (clock_reads w) (rss_reads w) (rng_draws w) (stdout w ++ [p])).

(** An array of [n] samples. *)
Fixpoint sample {A} (n : nat) (one : M A) : M (list A) :=
  match n with
  | O => ret []
  | S n' => x <- one ;; xs <- sample n' one ;; ret (x :: xs)
  end.

(** [np.random.randint(low, high, size)]: integers in [[low, high)]. *)
Definition randint (low high size : Z) : M (list Z) :=
  if size <? 0 then raise ValueError
  else if high <=? low then raise ValueError
  else sample (Z.to_nat size)
         (i <- next_draw ;;
          ret (low + Z.of_N (rand_bits env i) mod (high - low))).

(** [np.random.choice(a, size)]: elements of [a]. *)
Definition choice (a : list string) (size : Z) : M (list string) :=
  if size <? 0 then raise ValueError
  else if bool_decide (a = []) then raise ValueError
  else sample (Z.to_nat size)
         (i <- next_draw ;;
          ret (nth (N.to_nat (rand_bits env i) mod length a) a ""%string)).

(** [np.random.randn(size)]. *)
Definition randn (size : Z) : M (list Qc) :=
  if size <? 0 then raise ValueError
  else sample (Z.to_nat size) (i <- next_draw ;; ret (rand_normal env i)).

(** *** Utilities *)

Definition memory_usage_mb : M Qc :=
  rss <- memory_info_rss ;;
  ret (Qc_of_Z (Z.of_N rss) / Qc_of_Z (1024 ^ 2))%Qc.

Definition timed {A} (func : M A) : M (A * Qc) :=
  start <- time_time ;;
  result <- func ;;
  end_ <- time_time ;;
  ret (result, round2 (end_ - start)).

(** *** Data generation *)

Definition generate_dataset (path : string) (rows : Z) : M unit :=
  makedirs (dirname path) true ;;;
  user_ids <- randint 1 100000 rows ;;
  categories <- choice ["A"; "B"; "C"; "D"]%string rows ;;
  normals <- randn rows ;;
  timestamps <- lift (date_range start_2023 rows) ;;
  df <- lift (DataFrame user_ids categories
                ((fun x => (x * Qc_of_Z 100)%Qc) <$> normals) timestamps) ;;
  write_csv path df.

(** *** Pipelines *)

Definition pandas_pipeline_on (num : Numerics) (path : string) : M Series :=
  f <- gets fs ;;
  df <- lift (read_csv f path) ;;
  lift (has_column df "value") ;;;
  let df := mkFrame (columns df) (keep_positive (rows_of df)) in
  lift (has_column df "category") ;;;
  lift (has_column df "value") ;;;
  ret (groupby_mean_on num (rows_of df)).

Definition pandas_pipeline (path : string) : M Series :=
  pandas_pipeline_on exact path.

(** [dd.read_csv] reads the block size before it looks at the file; the
    mean of a column that holds no number at all, as in a file without a
    data row, is refused. *)
Definition dask_pipeline_on (num : Numerics) (path : string)
    (blocksize : string) : M Series :=
  cut <- lift (read_blocks env blocksize) ;;
  f <- gets fs ;;
  df <- lift (read_csv f path) ;;
  let blocks := cut (rows_of df) in
  lift (has_column df "value") ;;;
  let blocks := keep_positive <$> blocks in
  lift (has_column df "category") ;;;
  lift (has_column df "value") ;;;
  match rows_of df with
  | [] => raise NotImplementedError
  | _ => ret tt
  end ;;;
  ret (blocks_groupby_mean_on num blocks).

Definition dask_pipeline (path : string) (blocksize : string) : M Series :=
  dask_pipeline_on exact path blocksize.

(** *** Main *)

Definition main (args : Args) : M unit :=
  f <- gets fs ;;
  (if negb (path_exists f (data_path args)) then
     generate_dataset (data_path args) (rows args)
   else ret tt) ;;;
  pandas <- timed (pandas_pipeline (data_path args)) ;;
  pandas_mem <- (m <- memory_usage_mb ;; ret (round2 m)) ;;
  dask <- timed (dask_pipeline (data_path args) (blocksize args)) ;;
  dask_mem <- (m <- memory_usage_mb ;; ret (round2 m)) ;;
  let results :=
    [mkMeasurement "Pandas" pandas.2 pandas_mem;
     mkMeasurement "Dask" dask.2 dask_mem] in
  print (PText performance_title) ;;;
  print (PTable results) ;;;
  print (PText aggregation_title) ;;;
  print (PSeries dask.1).

End Program.

(** The "Dataset Provisioner" of the workflow: the first statement of
    [main]. *)
Definition provision (env : Oracle) (args : Args) : M unit :=
  f <- gets fs ;;
  if negb (path_exists f (data_path args)) then
    generate_dataset env (data_path args) (rows args)
  else ret tt.

(** The specification's reading of the aggregation: for one category, the
    arithmetic mean of [value] over exactly the rows of that category whose
    value is strictly greater than 0; nothing when there is no such row. *)
Definition selected_values (rows : list Row) (c : string) : list Qc :=
  value <$> filter (fun r => category r = c ∧ positive_value r) rows.

(** [m] is the arithmetic mean of the non-empty list [vs]: [m] times the
    number of elements is their sum. *)
Definition arithmetic_mean (vs : list Qc) (m : Qc) : Prop :=
  vs <> [] /\ (m * Qc_of_nat (length vs) = foldr Qcplus 0 vs)%Qc.

(** Two numbers within a relative tolerance of each other, two series
    within it on every category present in either. *)
Definition close_to (tol a b : Qc) : Prop :=
  (Qcabs (a - b) <= tol * Qcabs a)%Qc.

Definition agree_at (tol : Qc) (s1 s2 : Series) (c : string) : Prop :=
  match s1 !! c, s2 !! c with
  | Some a, Some b => close_to tol a b
  | None, None => True
  | _, _ => False
  end.

Definition series_close (tol : Qc) (s1 s2 : Series) : Prop :=
  forall c : string, agree_at tol s1 s2 c.

(** 1e-6. *)
Definition tolerance : Qc := Q2Qc (1 # 1000000).

(** [y] is [x] up to the relative error [eps]. *)
Definition within (eps x y : Qc) : Prop :=
  ((1 - eps) * x <= y /\ y <= (1 + eps) * x)%Qc.

(** The two float operations behind the mean of one array are accurate to
    the relative error [eps]: the sum of the array, and the division of that
    sum by the length. *)
Definition mean_accurate (eps : Qc) (num : Numerics) (vs : list Qc) : Prop :=
  vs <> [] ->
  within eps (Qc_sum vs) (array_sum num vs)
  /\ within eps (array_sum num vs / Qc_of_nat (length vs)) (mean_on num vs).

(** The float operations behind the mean of an array that is held in
    blocks are accurate to the relative error [eps]: the sum of each block,
    the sum of these sums, and the division of the total by the count. *)
Definition blocks_mean_accurate (eps : Qc) (num : Numerics)
    (gs : list (list Qc)) : Prop :=
  gs <> [] ->
  let sums := array_sum num <$> gs in
  let n := sum_list (length <$> gs) in
  Forall (fun g => within eps (Qc_sum g) (array_sum num g)) gs
  /\ within eps (Qc_sum sums) (combine_sums num sums)
  /\ within eps (combine_sums num sums / Qc_of_nat n)
       (divide num (combine_sums num sums) n).

(** An arithmetic that is accurate to the relative error [eps] on every
    array of positive numbers and on every division of a positive number by
    a count: an idealisation, that neither overflows nor loses precision on
    long arrays. *)
Definition accurate (eps : Qc) (num : Numerics) : Prop :=
  (forall l, l <> [] -> Forall (fun v => (0 < v)%Qc) l ->
             within eps (Qc_sum l) (array_sum num l))
  /\ (forall l, l <> [] -> Forall (fun v => (0 < v)%Qc) l ->
                within eps (Qc_sum l) (combine_sums num l))
  /\ (forall x n, (0 < x)%Qc -> (0 < n)%nat ->
                  within eps (x / Qc_of_nat n) (divide num x n)).

(** 1e-7. *)
Definition unit_error : Qc := Q2Qc (1 # 10000000).

(** An arithmetic that is not exact: every sum of an array comes out too
    large and every combined sum too small by 1e-8 of its value. *)
Definition skewed : Numerics :=
  mkNumerics
    (fun l => (Qc_sum l * (1 + Q2Qc (1 # 100000000)))%Qc)
    (fun l => (Qc_sum l * (1 - Q2Qc (1 # 100000000)))%Qc)
    (fun x n => (x / Qc_of_nat n)%Qc).


(** ** Vocabulary of the statements *)

(** A computation that leaves one part of the world as it found it. *)
Definition preserves {X A} (part : World -> X) (m : M A) : Prop :=
  forall w, part (m w).1 = part w.

(** The measured runs and the report: [main] after its first statement. *)
Definition benchmark (env : Oracle) (args : Args) : M unit :=
  pandas <- timed env (pandas_pipeline (data_path args)) ;;
  pandas_mem <- (m <- memory_usage_mb env ;; ret (round2 m)) ;;
  dask <- timed env (dask_pipeline env (data_path args) (blocksize args)) ;;
  dask_mem <- (m <- memory_usage_mb env ;; ret (round2 m)) ;;
  let results :=
    [mkMeasurement "Pandas" pandas.2 pandas_mem;
     mkMeasurement "Dask" dask.2 dask_mem] in
  print (PText performance_title) ;;;
  print (PTable results) ;;;
  print (PText aggregation_title) ;;;
  print (PSeries dask.1).

(** The values filed under one key, in row order. *)
Definition values_by (key : Row -> string) (rows : list Row) (c : string)
  : list Qc :=
  value <$> filter (fun r => key r = c) rows.

(** The values of one category that pandas groups. *)
Definition values_of (rows : list Row) (c : string) : list Qc :=
  values_by category (dropna rows) c.

(** The amended reading of the aggregation: the values of the rows of one
    category whose category is not a missing value and whose value is
    strictly greater than 0. *)
Definition counted_values (rows : list Row) (c : string) : list Qc :=
  value <$>
    filter (fun r => category r = c
                     /\ is_na (category r) = false /\ positive_value r)
           rows.

(** What the blocks hold for one key: the sum and the count of each block
    that has a row of it, in block order. *)
Definition partials (num : Numerics) (blocks : list (list Row)) (c : string)
  : list (Qc * nat) :=
  omap (fun b => chunk_stats_on num b !! c) blocks.

Definition gathered (ps : list (Qc * nat)) : option (list Qc * nat) :=
  match ps with
  | [] => None
  | _ => Some (ps.*1, sum_list ps.*2)
  end.

(** A group exists only when it has a row. *)
Definition nonempty {A} (l : list A) : option (list A) :=
  match l with [] => None | _ => Some l end.

(** A dataset file: its header names the two columns the pipelines use. *)
Definition dataset (df : Frame) : Prop :=
  "category"%string ∈ columns df /\ "value"%string ∈ columns df.

(** The state after [n] draws of the random generator. *)
Definition after_draws (n : nat) (w : World) : World :=
  mkWorld (fs w) (clock_reads w) (rss_reads w) (n + rng_draws w) (stdout w).

(** The state after one more reading of the clock, one more sample of the
    memory counter, one more [print]. *)
Definition tick (w : World) : World :=
  mkWorld (fs w) (S (clock_reads w)) (rss_reads w) (rng_draws w) (stdout w).

Definition sampled (w : World) : World :=
  mkWorld (fs w) (clock_reads w) (S (rss_reads w)) (rng_draws w) (stdout w).

Definition printing (p : printed) (w : World) : World :=
  mkWorld (fs w) (clock_reads w) (rss_reads w) (rng_draws w) (stdout w ++ [p]).

(** The state in which the run ends when both pipelines return. *)
Definition reported (env : Oracle) (s : Series) (w : World) : World :=
  let c := clock_reads w in
  let r := rss_reads w in
  let time1 := round2 (wall_clock env (S c) - wall_clock env c) in
  let time2 := round2 (wall_clock env (S (S (S c))) - wall_clock env (S (S c))) in
  let mem1 := round2 (Qc_of_Z (Z.of_N (rss_bytes env r)) / Qc_of_Z (1024 ^ 2)) in
  let mem2 :=
    round2 (Qc_of_Z (Z.of_N (rss_bytes env (S r))) / Qc_of_Z (1024 ^ 2)) in
  printing (PSeries s)
    (printing (PText aggregation_title)
       (printing (PTable [mkMeasurement "Pandas" time1 mem1;
                          mkMeasurement "Dask" time2 mem2])
          (printing (PText performance_title)
             (sampled (tick (tick (sampled (tick (tick w))))))))).

(** A part of the world that is not the file system. *)
Definition beside_fs {X} (part : World -> X) : Prop :=
  forall f w, part (set_fs f w) = part w.

(** A part of the world that is not the position of the random generator. *)
Definition beside_rng {X} (part : World -> X) : Prop :=
  forall n w, part (after_draws n w) = part w.

(** What the run has printed when it ends well. *)
Definition report_of (time1 mem1 time2 mem2 : Qc) (s : Series) : list printed :=
  [PText performance_title;
   PTable [mkMeasurement "Pandas" time1 mem1; mkMeasurement "Dask" time2 mem2];
   PText aggregation_title;
   PSeries s].

(** The reading of the claim on the report: after a successful run every
    printed table has two rows whose time and memory fields are not
    negative. *)
Definition report_fields_nonneg (env : Oracle) (args : Args) (w : World) : Prop :=
  forall w', main env args w = (w', Ok tt) ->
  forall t, PTable t ∈ stdout w' ->
    length t = 2%nat
    /\ Forall (fun m => (0 <= execution_time m)%Qc /\ (0 <= memory_usage m)%Qc) t.

(** A small dataset, a world that holds it, and a clock that is set back by
    one second between any two readings. *)
Definition tiny_frame : Frame :=
  mkFrame ["user_id"; "category"; "value"; "timestamp"]%string
    [mkRow 7 "A" (Qc_of_Z 10) start_2023;
     mkRow 8 "B" (Qc_of_Z (-4)) (start_2023 + 1);
     mkRow 9 "A" (Qc_of_Z 30) (start_2023 + 2)].

Definition tiny_world : World :=
  mkWorld {[ "d.csv"%string := File (Some tiny_frame) ]} 0 0 0 [].

Definition tiny_args : Args := mkArgs "d.csv" 3 "1MB".

Definition one_block (l : list Row) : list (list Row) := [l].

Definition clock_set_back : Oracle :=
  mkOracle (fun n => Qc_of_Z (10 - Z.of_nat n)) (fun _ => 52428800%N)
    (fun _ => 0%N) (fun _ => 0%Qc) (fun _ => Ok one_block).


(** A reader that cuts after the first row and cannot make a number of
    bytes of "abc", a clock that advances, and a process that starts in an
    empty directory. *)
Definition cut_after_first (l : list Row) : list (list Row) :=
  [take 1 l; drop 1 l].

Definition parse_or_cut (b : string)
  : result (list Row -> list (list Row)) :=
  if bool_decide (b = "abc"%string) then Raise ValueError
  else Ok cut_after_first.

Definition steady : Oracle :=
  mkOracle (fun n => (Qc_of_Z (Z.of_nat n) * Q2Qc (3 # 7))%Qc)
    (fun n => (52428800 + 1000 * N.of_nat n)%N)
    (fun n => (7919 * N.of_nat n + 13)%N)
    (fun n => (Qc_of_Z (Z.of_nat n) - Qc_of_Z 2)%Qc)
    parse_or_cut.

Definition empty_world : World := mkWorld ∅ 0 0 0 [].

Definition busy_world : World :=
  mkWorld {[ "d.csv"%string := File (Some tiny_frame);
             "notes"%string := Dir ]} 5 2 9 [PText "earlier"].

Definition bare_args : Args := mkArgs "dataset.csv" 1000 "128MB".

Definition small_args : Args := mkArgs "data/large_dataset.csv" 3 "128MB".

(** The small dataset with its first two rows exchanged, a file without
    the [value] column, and the arguments of some more runs. *)
Definition shuffled_frame : Frame :=
  mkFrame ["user_id"; "category"; "value"; "timestamp"]%string
    [mkRow 8 "B" (Qc_of_Z (-4)) (start_2023 + 1);
     mkRow 7 "A" (Qc_of_Z 10) start_2023;
     mkRow 9 "A" (Qc_of_Z 30) (start_2023 + 2)].

Definition shuffled_world : World :=
  mkWorld {[ "s.csv"%string := File (Some shuffled_frame) ]} 3 1 0 [].

Definition other_frame : Frame :=
  mkFrame ["user_id"; "category"; "amount"]%string (rows_of tiny_frame).

Definition other_world : World :=
  mkWorld {[ "d.csv"%string := File (Some other_frame) ]} 0 0 0 [].

Definition negative_args : Args := mkArgs "data/large_dataset.csv" (-5) "128MB".

Definition notes_args : Args := mkArgs "notes" 10 "128MB".

Definition rerun_args : Args := mkArgs "data/large_dataset.csv" 7 "1KB".

(** A block size that is not one, a row count of 0, and the arguments of a
    run on the file that holds the header only. *)
Definition unreadable_args : Args := mkArgs "d.csv" 3 "abc".



(** [y] lies between [lo] times [x] and [hi] times [x]. *)
Definition scaled (lo hi x y : Qc) : Prop := (lo * x <= y /\ y <= hi * x)%Qc.

(** The non-empty groups of one key, block by block. *)
Definition block_groups (blocks : list (list Row)) (c : string)
  : list (list Qc) :=
  filter (fun vs => vs <> []) ((fun b => values_by na_label b c) <$> blocks).

(** A file with a row whose category cell reads as a missing value. *)
Definition na_frame : Frame :=
  mkFrame ["user_id"; "category"; "value"; "timestamp"]%string
    [mkRow 1 "NA" (Qc_of_Z 5) start_2023;
     mkRow 2 "A" (Qc_of_Z 3) (start_2023 + 1)].

Definition na_world : World :=
  mkWorld {[ "na.csv"%string := File (Some na_frame) ]} 0 0 0 [].

(** A file that holds the header and no row. *)
Definition header_frame : Frame :=
  mkFrame ["user_id"; "category"; "value"; "timestamp"]%string [].

Definition header_world : World :=
  mkWorld {[ "h.csv"%string := File (Some header_frame) ]} 0 0 0 [].

(** C2 as the specification states it: on a dataset file the eager pipeline
    returns, for every category, the mean of [value] over exactly the rows
    of that category whose value is strictly greater than 0. *)
Definition eager_mean_claim (path : string) (w : World) (df : Frame) : Prop :=
  read_csv (fs w) path = Ok df -> dataset df ->
  exists s : Series,
    pandas_pipeline path w = (w, Ok s)
    /\ forall c,
         match s !! c with
         | Some m => arithmetic_mean (selected_values (rows_of df) c) m
         | None => selected_values (rows_of df) c = []
         end.

(** C1 as the specification states it: on a dataset file both pipelines
    return a mapping, and the two agree within the tolerance on every
    category present in either. *)
Definition pipelines_agree_claim (env : Oracle) (path b : string) (w : World)
    (df : Frame) : Prop :=
  read_csv (fs w) path = Ok df -> dataset df ->
  exists s1 s2 : Series,
    pandas_pipeline path w = (w, Ok s1)
    /\ dask_pipeline env path b w = (w, Ok s2)
    /\ series_close tolerance s1 s2.

(** * Properties *)

(** ** Paths *)

Example resolve_plain :
  resolve "data/large_dataset.csv" = "data/large_dataset.csv"%string.
Proof. reflexivity. Qed.

Example resolve_noise : resolve "//a/./b//" = "/a/b"%string.
Proof. reflexivity. Qed.

Example resolve_cwd : resolve "./" = ""%string.
Proof. reflexivity. Qed.

Example dirname_default :
  dirname "data/large_dataset.csv" = "data"%string.
Proof. reflexivity. Qed.

Example dirname_bare : dirname "dataset.csv" = ""%string.
Proof. reflexivity. Qed.

Example dirname_root : dirname "/x" = "/"%string.
Proof. reflexivity. Qed.

Example dirname_trailing : dirname "a//b/" = "a//b"%string.
Proof. reflexivity. Qed.

Example dirname_inner : dirname "a//b" = "a"%string.
Proof. reflexivity. Qed.

(** ** The monad *)

Lemma bind_ok {A B} (m : M A) (k : A -> M B) w w1 a :
  m w = (w1, Ok a) -> bind m k w = k a w1.
Proof. intros H. unfold bind. by rewrite H. Qed.

Lemma bind_raise {A B} (m : M A) (k : A -> M B) w w1 e :
  m w = (w1, Raise e) -> bind m k w = (w1, Raise e).
Proof. intros H. unfold bind. by rewrite H. Qed.

Lemma bind_ok_inv {A B} (m : M A) (k : A -> M B) w w' b :
  bind m k w = (w', Ok b) ->
  exists w1 a, m w = (w1, Ok a) /\ k a w1 = (w', Ok b).
Proof.
  unfold bind. destruct (m w) as [w1 [a|e]]; intros H.
  - by exists w1, a.
  - discriminate.
Qed.

Lemma lift_ok_inv {A} (r : result A) w w' a :
  lift r w = (w', Ok a) -> w' = w /\ r = Ok a.
Proof. unfold lift. intros [= -> ->]. done. Qed.

(** ** Computations that leave a part of the world alone *)

Lemma preserves_bind {X A B} (part : World -> X) (m : M A) (k : A -> M B) :
  preserves part m -> (forall a, preserves part (k a)) ->
  preserves part (bind m k).
Proof.
  intros Hm Hk w. unfold bind. specialize (Hm w).
  destruct (m w) as [w1 [a|e]]; simpl in *; [|done].
  by rewrite Hk.
Qed.

Lemma preserves_try_except {X A} (part : World -> X) (m : M A) h :
  preserves part m -> (forall e, preserves part (h e)) ->
  preserves part (try_except m h).
Proof.
  intros Hm Hh w. unfold try_except. specialize (Hm w).
  destruct (m w) as [w1 [a|e]]; simpl in *; [done|].
  by rewrite Hh.
Qed.

Lemma preserves_if {X A} (part : World -> X) (b : bool) (m1 m2 : M A) :
  preserves part m1 -> preserves part m2 ->
  preserves part (if b then m1 else m2).
Proof. by destruct b. Qed.

Create HintDb preserves.
#[local] Hint Resolve preserves_try_except preserves_if : preserves.
#[local] Hint Extern 1 (preserves _ (bind _ _)) =>
  (apply preserves_bind; [ | intros ? ]) : preserves.
#[local] Hint Extern 5 (preserves _ _) => (intros ?; reflexivity) : preserves.
#[local] Hint Extern 6 (preserves _ (match ?x with _ => _ end)) =>
  destruct x : preserves.

Ltac preserves_auto := auto 30 with preserves.

Lemma preserves_memory_usage_mb {X} (part : World -> X) env :
  preserves part (memory_info_rss env) ->
  preserves part (memory_usage_mb env).
Proof. intros H. unfold memory_usage_mb. preserves_auto. Qed.

Lemma preserves_timed {X A} (part : World -> X) env (func : M A) :
  preserves part (time_time env) -> preserves part func ->
  preserves part (timed env func).
Proof. intros Ht Hf. unfold timed. preserves_auto. Qed.

(** The pipelines only read. *)
Lemma pandas_pipeline_on_readonly num path w :
  (pandas_pipeline_on num path w).1 = w.
Proof.
  unfold pandas_pipeline_on, bind, gets, lift. simpl.
  repeat (case_match; simpl; try done).
Qed.

Lemma dask_pipeline_on_readonly env num path b w :
  (dask_pipeline_on env num path b w).1 = w.
Proof.
  unfold dask_pipeline_on, bind, gets, lift, raise, ret.
  destruct (read_blocks env b) as [cut|e]; [|done]. cbn beta iota.
  destruct (read_csv (fs w) path) as [df|e]; [|done]. cbn beta iota.
  destruct (has_column df "value"); [|done]. cbn beta iota.
  destruct (has_column df "category"); [|done]. cbn beta iota.
  by destruct (rows_of df).
Qed.

Lemma pandas_pipeline_readonly path w : (pandas_pipeline path w).1 = w.
Proof. apply pandas_pipeline_on_readonly. Qed.

Lemma dask_pipeline_readonly env path b w :
  (dask_pipeline env path b w).1 = w.
Proof. apply dask_pipeline_on_readonly. Qed.

Lemma preserves_pandas_pipeline {X} (part : World -> X) path :
  preserves part (pandas_pipeline path).
Proof. intros w. by rewrite pandas_pipeline_readonly. Qed.

Lemma preserves_dask_pipeline {X} (part : World -> X) env path b :
  preserves part (dask_pipeline env path b).
Proof. intros w. by rewrite dask_pipeline_readonly. Qed.

#[local] Hint Resolve preserves_memory_usage_mb preserves_timed
  preserves_pandas_pipeline preserves_dask_pipeline : preserves.

Lemma main_provision_benchmark env args w :
  main env args w = bind (provision env args) (fun _ => benchmark env args) w.
Proof.
  reflexivity.
Qed.

Lemma benchmark_preserves_fs env args : preserves fs (benchmark env args).
Proof. unfold benchmark. preserves_auto. Qed.

Lemma benchmark_preserves_rng env args :
  preserves rng_draws (benchmark env args).
Proof. unfold benchmark. preserves_auto. Qed.

(** ** Provisioning *)

Lemma cut_last_sep_no_sep p :
  has_sep p = false -> cut_last_sep p = (EmptyString, p).
Proof.
  destruct p as [|c p]; [done|]. simpl.
  intros [Hc Hp]%orb_false_elim. by rewrite Hp, Hc.
Qed.

Lemma dirname_no_sep p : has_sep p = false -> dirname p = EmptyString.
Proof.
  intros H. unfold dirname, path_split. by rewrite cut_last_sep_no_sep.
Qed.

(** [os.makedirs("", exist_ok=True)] raises: there is no entry to create. *)
Lemma makedirs_empty w :
  makedirs EmptyString true w = (w, Raise FileNotFoundError).
Proof. reflexivity. Qed.

Lemma provision_existing env args w :
  path_exists (fs w) (data_path args) = true ->
  provision env args w = (w, Ok tt).
Proof. intros H. unfold provision, bind, gets. by rewrite H. Qed.

Lemma provision_missing env args w :
  path_exists (fs w) (data_path args) = false ->
  provision env args w = generate_dataset env (data_path args) (rows args) w.
Proof. intros H. unfold provision, bind, gets. by rewrite H. Qed.

(** C9. A data path without a directory part that does not exist yet:
    provisioning raises [FileNotFoundError] and creates nothing, because
    [os.makedirs] is called on the empty string [os.path.dirname] returns;
    the whole run ends with that error. *)
Theorem bare_path_provisioning_fails env args w :
  has_sep (data_path args) = false ->
  path_exists (fs w) (data_path args) = false ->
  dirname (data_path args) = EmptyString
  /\ generate_dataset env (data_path args) (rows args) w
     = (w, Raise FileNotFoundError)
  /\ main env args w = (w, Raise FileNotFoundError).
Proof.
  intros Hsep Hnew.
  assert (Hgen : generate_dataset env (data_path args) (rows args) w
                 = (w, Raise FileNotFoundError)).
  { unfold generate_dataset. rewrite (dirname_no_sep _ Hsep).
    apply (bind_raise _ _ _ _ _ (makedirs_empty w)). }
  split; [by apply dirname_no_sep|]. split; [done|].
  rewrite main_provision_benchmark.
  apply bind_raise. by rewrite provision_missing.
Qed.

(** C3. When the data path exists at the start, the run changes no file
    and draws nothing from the random generator, whatever [--rows] and
    [--blocksize] are and however the run ends. *)
Theorem existing_dataset_untouched env args w :
  path_exists (fs w) (data_path args) = true ->
  fs (main env args w).1 = fs w
  /\ rng_draws (main env args w).1 = rng_draws w.
Proof.
  intros H. rewrite main_provision_benchmark.
  rewrite (bind_ok _ _ _ _ _ (provision_existing env args w H)).
  split; [apply benchmark_preserves_fs | apply benchmark_preserves_rng].
Qed.

(** ** Grouping *)

Lemma values_by_cons key r rows c :
  values_by key (r :: rows) c
  = if decide (key r = c) then value r :: values_by key rows c
    else values_by key rows c.
Proof.
  unfold values_by. rewrite filter_cons. by destruct (decide _).
Qed.

Lemma values_by_app key rows1 rows2 c :
  values_by key (rows1 ++ rows2) c
  = values_by key rows1 c ++ values_by key rows2 c.
Proof. unfold values_by. by rewrite filter_app, fmap_app. Qed.

Lemma group_by_lookup key rows c :
  group_by key rows !! c = nonempty (values_by key rows c).
Proof.
  induction rows as [|r rows IH]; [done|].
  unfold group_by in *. simpl. rewrite values_by_cons.
  destruct (decide (key r = c)) as [->|Hne].
  - rewrite lookup_insert_eq, IH. by destruct (values_by key rows c).
  - by rewrite lookup_insert_ne.
Qed.

Lemma groupby_values_lookup rows c :
  groupby_values rows !! c = nonempty (values_of rows c).
Proof. apply group_by_lookup. Qed.

Lemma groupby_mean_on_lookup num rows c :
  groupby_mean_on num rows !! c = mean_on num <$> nonempty (values_of rows c).
Proof.
  unfold groupby_mean_on. by rewrite lookup_fmap, groupby_values_lookup.
Qed.

Lemma values_of_keep_positive rows c :
  values_of (keep_positive rows) c = counted_values rows c.
Proof.
  unfold values_of, values_by, dropna, keep_positive, counted_values.
  rewrite (list_filter_filter (fun r => is_na (category r) = false)
             positive_value).
  by rewrite list_filter_filter.
Qed.

Lemma groupby_mean_on_keep_positive num rows c :
  groupby_mean_on num (keep_positive rows) !! c
  = mean_on num <$> nonempty (counted_values rows c).
Proof. by rewrite groupby_mean_on_lookup, values_of_keep_positive. Qed.

Lemma elem_of_counted_values rows c v :
  v ∈ counted_values rows c
  <-> exists r, r ∈ rows /\ category r = c /\ is_na (category r) = false
                /\ positive_value r /\ value r = v.
Proof.
  unfold counted_values. rewrite list_elem_of_fmap. split.
  - intros (r & -> & [(Hc & Hna & Hpos) Hr]%list_elem_of_filter). by exists r.
  - intros (r & Hr & Hc & Hna & Hpos & <-). exists r. split; [done|].
    by apply list_elem_of_filter.
Qed.

Lemma counted_values_nil rows c :
  (forall r, r ∈ rows -> category r = c -> ~ positive_value r) ->
  counted_values rows c = [].
Proof.
  intros H. destruct (counted_values rows c) as [|v vs] eqn:Hvs; [done|].
  assert (Hv : v ∈ counted_values rows c) by (rewrite Hvs; left).
  apply elem_of_counted_values in Hv as (r & Hr & Hc & _ & Hpos & _).
  by destruct (H r).
Qed.

Lemma Qc_sum_app l1 l2 : Qc_sum (l1 ++ l2) = (Qc_sum l1 + Qc_sum l2)%Qc.
Proof.
  induction l1 as [|x l1 IH]; simpl.
  - unfold Qc_sum at 2. simpl. by rewrite Qcplus_0_l.
  - unfold Qc_sum in *. simpl. rewrite IH. ring.
Qed.

Lemma concat_keep_positive blocks :
  concat (keep_positive <$> blocks) = keep_positive (concat blocks).
Proof.
  induction blocks as [|b blocks IH]; [done|].
  rewrite fmap_cons. cbn [concat]. rewrite IH.
  unfold keep_positive. by rewrite filter_app.
Qed.

(** ** The tables of the blocks *)

Lemma chunk_stats_on_lookup num block c :
  chunk_stats_on num block !! c
  = (fun vs => (array_sum num vs, length vs))
      <$> nonempty (values_by na_label block c).
Proof. unfold chunk_stats_on. by rewrite lookup_fmap, group_by_lookup. Qed.

Lemma gathered_lookup num blocks c :
  foldr add_chunk ∅ (chunk_stats_on num <$> blocks) !! c
  = gathered (partials num blocks c).
Proof.
  induction blocks as [|b blocks IH]; [done|].
  rewrite fmap_cons. cbn [foldr]. unfold add_chunk at 1.
  rewrite lookup_merge, IH. unfold partials. cbn [omap list_omap].
  fold (omap (fun b => chunk_stats_on num b !! c) blocks).
  destruct (chunk_stats_on num b !! c) as [[s n]|];
    destruct (omap _ blocks) as [|p ps]; simpl; rewrite ?Nat.add_0_r; done.
Qed.

Lemma blocks_groupby_mean_on_lookup num blocks c :
  blocks_groupby_mean_on num blocks !! c
  = (fun ssm : list Qc * nat => divide num (combine_sums num ssm.1) ssm.2)
      <$> gathered (partials num blocks c).
Proof.
  unfold blocks_groupby_mean_on. by rewrite lookup_fmap, gathered_lookup.
Qed.

Lemma partials_nil num blocks c :
  partials num blocks c = [] <-> values_by na_label (concat blocks) c = [].
Proof.
  induction blocks as [|b blocks IH]; [done|].
  unfold partials in *. cbn [omap list_omap concat].
  fold (omap (fun b => chunk_stats_on num b !! c) blocks).
  rewrite values_by_app, chunk_stats_on_lookup.
  destruct (values_by na_label b c) as [|v vs]; cbn; [done|].
  split; discriminate.
Qed.

Lemma blocks_groupby_mean_on_is_Some num blocks c :
  is_Some (blocks_groupby_mean_on num blocks !! c) ->
  exists r, r ∈ concat blocks /\ na_label r = c.
Proof.
  rewrite blocks_groupby_mean_on_lookup.
  destruct (partials num blocks c) as [|p ps] eqn:Hp;
    [by intros [? ?]|]. intros _.
  destruct (values_by na_label (concat blocks) c) as [|v vs] eqn:Hv.
  { apply (partials_nil num) in Hv. by rewrite Hv in Hp. }
  unfold values_by in Hv.
  destruct (filter _ (concat blocks)) as [|r rows] eqn:Hf; [done|].
  assert (Hr : r ∈ filter (fun r => na_label r = c) (concat blocks))
    by (rewrite Hf; left).
  apply list_elem_of_filter in Hr as [Hc Hr]. by exists r.
Qed.

(** ** The pipelines on a well-formed dataset *)

Lemma has_column_ok df col : col ∈ columns df -> has_column df col = Ok tt.
Proof. intros H. unfold has_column. by rewrite bool_decide_eq_true_2. Qed.

Lemma generated_dataset df :
  columns df = ["user_id"; "category"; "value"; "timestamp"]%string ->
  dataset df.
Proof. intros H. unfold dataset. rewrite H. split; set_solver. Qed.

Lemma pandas_pipeline_on_ok num path w df :
  read_csv (fs w) path = Ok df -> dataset df ->
  pandas_pipeline_on num path w
  = (w, Ok (groupby_mean_on num (keep_positive (rows_of df)))).
Proof.
  intros Hread [Hc Hv]. unfold pandas_pipeline_on, bind, gets, lift. simpl.
  rewrite Hread. simpl. by rewrite !has_column_ok.
Qed.

Lemma dask_pipeline_on_ok env num path b w df cut :
  read_blocks env b = Ok cut ->
  read_csv (fs w) path = Ok df -> dataset df -> rows_of df <> [] ->
  dask_pipeline_on env num path b w
  = (w, Ok (blocks_groupby_mean_on num (keep_positive <$> cut (rows_of df)))).
Proof.
  intros Hcut Hread [Hc Hv] Hrows.
  unfold dask_pipeline_on, bind, gets, lift. rewrite Hcut. cbn beta iota.
  rewrite Hread. cbn beta iota. rewrite !has_column_ok by done.
  by destruct (rows_of df).
Qed.

Lemma pandas_pipeline_ok path w df :
  read_csv (fs w) path = Ok df -> dataset df ->
  pandas_pipeline path w = (w, Ok (groupby_mean (keep_positive (rows_of df)))).
Proof. apply pandas_pipeline_on_ok. Qed.

Lemma dask_pipeline_ok env path b w df cut :
  read_blocks env b = Ok cut ->
  read_csv (fs w) path = Ok df -> dataset df -> rows_of df <> [] ->
  dask_pipeline env path b w
  = (w, Ok (blocks_groupby_mean (keep_positive <$> cut (rows_of df)))).
Proof. apply dask_pipeline_on_ok. Qed.

(** C10. A category without any row of strictly positive value is absent
    from the mapping the eager pipeline returns; when no row at all has a
    positive value the mapping is empty. *)
Theorem eager_pipeline_drops_empty_groups path w df :
  read_csv (fs w) path = Ok df -> dataset df ->
  exists s : Series,
    pandas_pipeline path w = (w, Ok s)
    /\ (forall c,
          (forall r, r ∈ rows_of df -> category r = c -> ~ positive_value r) ->
          s !! c = None)
    /\ ((forall r, r ∈ rows_of df -> ~ positive_value r) -> s = ∅).
Proof.
  intros Hread Hdf. eexists. split; [by apply pandas_pipeline_ok|].
  assert (Habsent : forall c,
    (forall r, r ∈ rows_of df -> category r = c -> ~ positive_value r) ->
    groupby_mean (keep_positive (rows_of df)) !! c = None).
  { intros c Hc. unfold groupby_mean.
    by rewrite groupby_mean_on_keep_positive, counted_values_nil. }
  split; [done|].
  intros Hnone. apply map_eq. intros c. rewrite lookup_empty.
  apply Habsent. intros r Hr _. by apply Hnone.
Qed.

(** ** Data generation *)

Lemma sample_draws {A} (f : nat -> A) n w :
  sample n (bind next_draw (fun i => ret (f i))) w
  = (after_draws n w, Ok (f <$> seq (rng_draws w) n)).
Proof.
  revert w. induction n as [|n IH]; intros w.
  - by destruct w.
  - cbn [sample]. unfold bind at 1. unfold bind at 1.
    cbn [next_draw ret]. unfold bind at 1. rewrite IH.
    unfold ret, after_draws.
    cbn [seq fmap list_fmap fs clock_reads rss_reads rng_draws stdout].
    by rewrite Nat.add_succ_r.
Qed.

Lemma randint_run env low high size w :
  0 <= size -> low < high ->
  randint env low high size w
  = (after_draws (Z.to_nat size) w,
     Ok ((fun i => low + Z.of_N (rand_bits env i) mod (high - low))
           <$> seq (rng_draws w) (Z.to_nat size))).
Proof.
  intros Hsize Hlow. unfold randint.
  destruct (Z.ltb_spec size 0); [lia|].
  destruct (Z.leb_spec high low); [lia|].
  apply sample_draws.
Qed.

Lemma choice_run env a size w :
  0 <= size -> a <> [] ->
  choice env a size w
  = (after_draws (Z.to_nat size) w,
     Ok ((fun i => nth (N.to_nat (rand_bits env i) mod length a) a ""%string)
           <$> seq (rng_draws w) (Z.to_nat size))).
Proof.
  intros Hsize Ha. unfold choice.
  destruct (Z.ltb_spec size 0); [lia|].
  rewrite bool_decide_eq_false_2 by done.
  apply sample_draws.
Qed.

Lemma randn_run env size w :
  0 <= size ->
  randn env size w
  = (after_draws (Z.to_nat size) w,
     Ok (rand_normal env <$> seq (rng_draws w) (Z.to_nat size))).
Proof.
  intros Hsize. unfold randn.
  destruct (Z.ltb_spec size 0); [lia|].
  apply sample_draws.
Qed.

Lemma randint_range env low high size w w' xs :
  randint env low high size w = (w', Ok xs) ->
  Forall (fun x => low <= x < high) xs.
Proof.
  unfold randint.
  destruct (Z.ltb_spec size 0); [discriminate|].
  destruct (Z.leb_spec high low); [discriminate|].
  rewrite sample_draws. intros [= _ <-].
  apply Forall_fmap, Forall_forall. intros i _. simpl.
  pose proof (Z.mod_pos_bound (Z.of_N (rand_bits env i)) (high - low)). lia.
Qed.

Lemma choice_member env a size w w' xs :
  choice env a size w = (w', Ok xs) -> Forall (fun x => x ∈ a) xs.
Proof.
  unfold choice.
  destruct (Z.ltb_spec size 0); [discriminate|].
  destruct (bool_decide_reflect (a = [])) as [|Ha]; [discriminate|].
  rewrite sample_draws. intros [= _ <-].
  apply Forall_fmap, Forall_forall. intros i _. simpl.
  apply list_elem_of_In, nth_In, Nat.mod_upper_bound.
  by destruct a.
Qed.

Lemma frame_rows_Forall (P : Z -> Prop) (Q : string -> Prop) us cs vs ts :
  Forall P us -> Forall Q cs ->
  Forall (fun r => Q (category r) /\ P (user_id r))
    (zip_with (fun (p : Z * string) (q : Qc * Z) => mkRow p.1 p.2 q.1 q.2)
       (zip us cs) (zip vs ts)).
Proof.
  intros Hus. revert cs vs ts.
  induction Hus as [|u us Hu Hus IH]; intros cs vs ts Hcs; [done|].
  destruct Hcs as [|c cs Hc Hcs]; [done|].
  destruct vs as [|v vs]; [done|]. destruct ts as [|t ts]; [done|].
  simpl. constructor; [done|]. by apply IH.
Qed.

Lemma DataFrame_ok us cs vs ts df :
  DataFrame us cs vs ts = Ok df ->
  columns df = ["user_id"; "category"; "value"; "timestamp"]%string
  /\ length (rows_of df) = length us
  /\ rows_of df
     = zip_with (fun (p : Z * string) (q : Qc * Z) => mkRow p.1 p.2 q.1 q.2)
         (zip us cs) (zip vs ts).
Proof.
  unfold DataFrame. case_bool_decide as Hlen; [|discriminate].
  intros [= <-]. simpl. split; [done|]. split; [|done].
  destruct Hlen as (Hc & Hv & Ht).
  rewrite length_zip_with, !length_zip. lia.
Qed.

(** After the file has been written it reads back as written. *)
Lemma open_w_read_back f p df :
  open_w f p = Ok tt ->
  read_csv (<[resolve p := File (Some df)]> f) p = Ok df.
Proof.
  unfold open_w, read_csv, stat.
  destruct (is_empty p) eqn:Hp; [done|].
  destruct (is_empty (resolve p) || all_sep (resolve p)) eqn:Hkey; [done|].
  rewrite lookup_insert_eq.
  destruct (f !! resolve p) as [[|d]|]; [done| |].
  - by destruct (names_directory p).
  - by destruct (names_directory p).
Qed.

Lemma write_csv_ok_inv p df w w' :
  write_csv p df w = (w', Ok tt) ->
  open_w (fs w) p = Ok tt
  /\ fs w' = <[resolve p := File (Some df)]> (fs w).
Proof.
  unfold write_csv, bind, gets, lift, modify.
  destruct (open_w (fs w) p) as [[]|e]; [|discriminate].
  by intros [= <-].
Qed.

Lemma write_csv_run p df w :
  open_w (fs w) p = Ok tt ->
  write_csv p df w = (set_fs (<[resolve p := File (Some df)]> (fs w)) w, Ok tt).
Proof.
  intros H. unfold write_csv, bind, gets, lift, modify. by rewrite H.
Qed.

(** What a successful generation went through. *)
Lemma generate_dataset_ok_inv env path R w w' :
  generate_dataset env path R w = (w', Ok tt) ->
  exists w1 w2 w3 w4 us cs ns ts df,
    makedirs (dirname path) true w = (w1, Ok tt)
    /\ randint env 1 100000 R w1 = (w2, Ok us)
    /\ choice env ["A"; "B"; "C"; "D"]%string R w2 = (w3, Ok cs)
    /\ randn env R w3 = (w4, Ok ns)
    /\ date_range start_2023 R = Ok ts
    /\ DataFrame us cs ((fun x => (x * Qc_of_Z 100)%Qc) <$> ns) ts = Ok df
    /\ write_csv path df w4 = (w', Ok tt).
Proof.
  unfold generate_dataset. intros H.
  apply bind_ok_inv in H as (w1 & [] & Hmk & H).
  apply bind_ok_inv in H as (w2 & us & Hus & H).
  apply bind_ok_inv in H as (w3 & cs & Hcs & H).
  apply bind_ok_inv in H as (w4 & ns & Hns & H).
  apply bind_ok_inv in H as (w5 & ts & Hts & H).
  apply lift_ok_inv in Hts as [-> Hts].
  apply bind_ok_inv in H as (w6 & df & Hdf & H).
  apply lift_ok_inv in Hdf as [-> Hdf].
  by exists w1, w2, w3, w4, us, cs, ns, ts, df.
Qed.

Lemma generate_dataset_run env path R w w1 :
  0 <= R ->
  makedirs (dirname path) true w = (w1, Ok tt) ->
  open_w (fs w1) path = Ok tt ->
  exists w' df,
    generate_dataset env path R w = (w', Ok tt)
    /\ read_csv (fs w') path = Ok df
    /\ length (rows_of df) = Z.to_nat R.
Proof.
  intros HR Hmk Hopen. unfold generate_dataset.
  rewrite (bind_ok _ _ _ _ _ Hmk).
  erewrite bind_ok by (apply randint_run; lia).
  erewrite bind_ok by (by apply choice_run).
  erewrite bind_ok by (by apply randn_run).
  unfold date_range. destruct (Z.ltb_spec R 0); [lia|].
  unfold lift at 1. unfold bind at 1.
  unfold DataFrame. rewrite bool_decide_eq_true_2.
  2:{ by rewrite !length_fmap, !length_seq. }
  unfold lift at 1. unfold bind at 1.
  rewrite write_csv_run by done.
  eexists _, _. split; [done|]. split.
  - cbn [fs set_fs]. by apply open_w_read_back.
  - cbn [rows_of]. rewrite length_zip_with, !length_zip, !length_fmap,
      !length_seq. lia.
Qed.

(** C4. Generating a dataset of [R > 0] rows, in a file system that lets
    the parent directory be made and the file be opened for writing,
    succeeds and leaves under the path a file of [R] data rows below one
    header line: [R + 1] lines. *)
Theorem generated_file_line_count env path R w w1 :
  0 < R ->
  makedirs (dirname path) true w = (w1, Ok tt) ->
  open_w (fs w1) path = Ok tt ->
  exists w' df,
    generate_dataset env path R w = (w', Ok tt)
    /\ read_csv (fs w') path = Ok df
    /\ Z.of_nat (length (rows_of df)) = R
    /\ Z.of_nat (length (csv_lines df)) = R + 1.
Proof.
  intros HR Hmk Hopen.
  destruct (generate_dataset_run env path R w w1) as (w' & df & Hgen & Hread & Hlen);
    [lia | done | done |].
  exists w', df. split; [done|]. split; [done|].
  unfold csv_lines. cbn [length]. rewrite length_fmap, Hlen. lia.
Qed.

(** C5. In a freshly generated dataset every row has a category among
    "A", "B", "C", "D" and a user id at least 1 and below 100000. *)
Theorem generated_rows_in_range env path R w w' :
  generate_dataset env path R w = (w', Ok tt) ->
  exists df,
    read_csv (fs w') path = Ok df
    /\ Forall (fun r => category r ∈ ["A"; "B"; "C"; "D"]%string
                        /\ 1 <= user_id r < 100000) (rows_of df).
Proof.
  intros H.
  apply generate_dataset_ok_inv in H
    as (w1 & w2 & w3 & w4 & us & cs & ns & ts & df
        & _ & Hus & Hcs & _ & _ & Hdf & Hwrite).
  apply write_csv_ok_inv in Hwrite as [Hopen Hfs].
  exists df. split.
  - rewrite Hfs. by apply open_w_read_back.
  - apply DataFrame_ok in Hdf as (_ & _ & ->).
    apply (frame_rows_Forall (fun u => 1 <= u < 100000)
             (fun c => c ∈ ["A"; "B"; "C"; "D"]%string)).
    + by eapply randint_range.
    + by eapply choice_member.
Qed.

(** ** Numbers *)

Lemma Qc_div_nonneg (a b : Qc) : (0 <= a -> 0 < b -> 0 <= a / b)%Qc.
Proof.
  intros Ha Hb. unfold Qcdiv.
  apply Qcmult_nonneg_nonneg; [done|]. by apply Qclt_le_weak, Qcinv_pos.
Qed.

Lemma Qc_hundred_pos : (0 < Qc_of_Z 100)%Qc.
Proof. rewrite <- Z2Qc_inj_0. by apply (proj1 (Z2Qc_inj_lt 0 100)). Qed.

Lemma round_half_even_nonneg q : (0 <= q)%Qc -> 0 <= round_half_even q.
Proof.
  intros Hq. unfold round_half_even.
  assert (0 <= Qfloor q) by (by apply (Qfloor_resp_le 0 q)).
  destruct (Qccompare _ _); [destruct (Z.even _)| |]; lia.
Qed.

Lemma round2_nonneg q : (0 <= q)%Qc -> (0 <= round2 q)%Qc.
Proof.
  intros Hq. unfold round2. apply Qc_div_nonneg; [|apply Qc_hundred_pos].
  rewrite <- Z2Qc_inj_0.
  apply (proj1 (Z2Qc_inj_le 0 _)), round_half_even_nonneg.
  apply Qcmult_nonneg_nonneg; [done|]. apply Qclt_le_weak, Qc_hundred_pos.
Qed.

Lemma elapsed_nonneg (t0 t1 : Qc) : (t0 <= t1 -> 0 <= round2 (t1 - t0))%Qc.
Proof. intros H. apply round2_nonneg. by apply Qcle_minus_iff in H. Qed.

Lemma megabytes_nonneg (rss : N) :
  (0 <= round2 (Qc_of_Z (Z.of_N rss) / Qc_of_Z (1024 ^ 2)))%Qc.
Proof.
  apply round2_nonneg, Qc_div_nonneg.
  - rewrite <- Z2Qc_inj_0. apply (proj1 (Z2Qc_inj_le 0 _)). lia.
  - rewrite <- Z2Qc_inj_0. by apply (proj1 (Z2Qc_inj_lt 0 _)).
Qed.


(** ** The measured runs *)

Lemma timed_run {A} env (func : M A) w :
  timed env func w
  = match func (tick w) with
    | (w2, Ok a) =>
        (tick w2,
         Ok (a, round2 (wall_clock env (clock_reads w2)
                        - wall_clock env (clock_reads w))))
    | (w2, Raise e) => (w2, Raise e)
    end.
Proof.
  unfold timed, bind, time_time, ret. fold (tick w).
  by destruct (func (tick w)) as [w2 [a|e]].
Qed.

(** A pipeline's result is decided by the file under the path. *)
Lemma pandas_pipeline_same_file path w1 w2 :
  stat (fs w1) path = stat (fs w2) path ->
  (pandas_pipeline path w1).2 = (pandas_pipeline path w2).2.
Proof.
  intros Hstat.
  unfold pandas_pipeline, pandas_pipeline_on, bind, gets, lift, read_csv.
  simpl. rewrite Hstat.
  repeat (case_match; simpl; try done).
Qed.

Lemma dask_pipeline_same_file env1 env2 path b w1 w2 :
  stat (fs w1) path = stat (fs w2) path ->
  read_blocks env1 b = read_blocks env2 b ->
  (dask_pipeline env1 path b w1).2 = (dask_pipeline env2 path b w2).2.
Proof.
  intros Hstat Hblocks.
  unfold dask_pipeline, dask_pipeline_on, bind, gets, lift, read_csv.
  rewrite Hblocks. destruct (read_blocks env2 b) as [cut|e]; [|done].
  cbn beta iota. rewrite Hstat.
  destruct (stat (fs w2) path) as [[|[df|]]|e]; try done. cbn beta iota.
  destruct (has_column df "value"); [|done]. cbn beta iota.
  destruct (has_column df "category"); [|done]. cbn beta iota.
  by destruct (rows_of df).
Qed.

Lemma pandas_pipeline_at path w w0 :
  fs w = fs w0 -> pandas_pipeline path w = (w, (pandas_pipeline path w0).2).
Proof.
  intros H. rewrite (surjective_pairing (pandas_pipeline path w)).
  rewrite pandas_pipeline_readonly. f_equal.
  apply pandas_pipeline_same_file. by rewrite H.
Qed.

Lemma dask_pipeline_at env path b w w0 :
  fs w = fs w0 ->
  dask_pipeline env path b w = (w, (dask_pipeline env path b w0).2).
Proof.
  intros H. rewrite (surjective_pairing (dask_pipeline env path b w)).
  rewrite dask_pipeline_readonly. f_equal.
  apply dask_pipeline_same_file; [|done]. by rewrite H.
Qed.

(** The measured runs, case by case. *)
Lemma benchmark_run env args w :
  benchmark env args w
  = match (pandas_pipeline (data_path args) w).2 with
    | Raise e => (tick w, Raise e)
    | Ok _ =>
        match (dask_pipeline env (data_path args) (blocksize args) w).2 with
        | Raise e => (tick (sampled (tick (tick w))), Raise e)
        | Ok s => (reported env s w, Ok tt)
        end
    end.
Proof.
  unfold benchmark. unfold bind at 1. rewrite timed_run.
  rewrite (pandas_pipeline_at _ (tick w) w) by done.
  destruct (pandas_pipeline (data_path args) w).2 as [s1|e]; [|done].
  unfold bind at 1. unfold memory_usage_mb, memory_info_rss.
  unfold bind at 1 2. cbn [ret]. unfold bind at 1. rewrite timed_run.
  rewrite (dask_pipeline_at _ _ _ _ w) by done.
  destruct (dask_pipeline env (data_path args) (blocksize args) w).2
    as [s2|e]; [|done].
  reflexivity.
Qed.

(** C6. The mapping a pipeline returns is a function of the dataset file
    alone: two runs started in any two states of the process (other files,
    clock, memory counter, random generator, output so far) that hold the
    same file under the path return the same result, for the eager pipeline
    and, with the same block size, for the partitioned one. *)
Theorem pipelines_deterministic env1 env2 path b w1 w2 :
  stat (fs w1) path = stat (fs w2) path ->
  read_blocks env1 b = read_blocks env2 b ->
  (pandas_pipeline path w1).2 = (pandas_pipeline path w2).2
  /\ (dask_pipeline env1 path b w1).2 = (dask_pipeline env2 path b w2).2.
Proof.
  intros Hstat Hblocks. split.
  - by apply pandas_pipeline_same_file.
  - by apply dask_pipeline_same_file.
Qed.


(** ** Provisioning reads no clock and prints nothing *)

Lemma preserves_modify_fs {X} (part : World -> X) f :
  beside_fs part -> preserves part (modify (set_fs f)).
Proof. intros H w. apply H. Qed.

Lemma preserves_mkdir {X} (part : World -> X) p :
  beside_fs part -> preserves part (mkdir p).
Proof.
  intros H. unfold mkdir. apply preserves_bind; [by intros ?|]. intros f.
  repeat (apply preserves_if; [by intros ?|]).
  apply preserves_bind; [by intros ?|]. intros _.
  by apply preserves_modify_fs.
Qed.

Lemma preserves_makedirs_fuel {X} (part : World -> X) fuel name exist_ok :
  beside_fs part -> preserves part (makedirs_fuel fuel name exist_ok).
Proof.
  intros H. revert name. induction fuel as [|fuel IH]; intros name.
  - by intros ?.
  - cbn [makedirs_fuel].
    destruct (path_split name) as [head tail].
    destruct (if is_empty tail then path_split head else (head, tail))
      as [head' tail'].
    apply preserves_bind; [by intros ?|]. intros f.
    apply preserves_bind.
    + apply preserves_if; [|by intros ?].
      apply preserves_bind; [|by intros ? ?].
      apply preserves_try_except; [apply IH|].
      intros e. by destruct e; intros ?.
    + intros go_on. apply preserves_if; [|by intros ?].
      apply preserves_try_except; [by apply preserves_mkdir|].
      intros e. apply preserves_bind; [by intros ?|]. intros f1.
      by apply preserves_if; intros ?.
Qed.

Lemma preserves_write_csv {X} (part : World -> X) p df :
  beside_fs part -> preserves part (write_csv p df).
Proof.
  intros H. unfold write_csv. apply preserves_bind; [by intros ?|]. intros f.
  apply preserves_bind; [by intros ?|]. intros _.
  by apply preserves_modify_fs.
Qed.

Lemma preserves_sample_draws {X A} (part : World -> X) (f : nat -> A) n :
  beside_rng part ->
  preserves part (sample n (bind next_draw (fun i => ret (f i)))).
Proof. intros H w. rewrite sample_draws. apply H. Qed.

Lemma preserves_generate_dataset {X} (part : World -> X) env path R :
  beside_fs part -> beside_rng part ->
  preserves part (generate_dataset env path R).
Proof.
  intros Hfs Hrng. unfold generate_dataset, randint, choice, randn.
  apply preserves_bind; [by apply preserves_makedirs_fuel|]. intros _.
  apply preserves_bind.
  { repeat (apply preserves_if; [by intros ?|]).
    by apply preserves_sample_draws. }
  intros us. apply preserves_bind.
  { repeat (apply preserves_if; [by intros ?|]).
    by apply preserves_sample_draws. }
  intros cs. apply preserves_bind.
  { repeat (apply preserves_if; [by intros ?|]).
    by apply preserves_sample_draws. }
  intros ns. apply preserves_bind; [by intros ?|]. intros ts.
  apply preserves_bind; [by intros ?|]. intros df.
  by apply preserves_write_csv.
Qed.

Lemma preserves_provision {X} (part : World -> X) env args :
  beside_fs part -> beside_rng part -> preserves part (provision env args).
Proof.
  intros Hfs Hrng. unfold provision.
  apply preserves_bind; [by intros ?|]. intros f.
  apply preserves_if; [by apply preserves_generate_dataset | by intros ?].
Qed.

(** ** The report *)

Lemma reported_stdout env s w :
  stdout (reported env s w)
  = stdout w ++
    report_of
      (round2 (wall_clock env (S (clock_reads w))
               - wall_clock env (clock_reads w)))
      (round2 (Qc_of_Z (Z.of_N (rss_bytes env (rss_reads w)))
               / Qc_of_Z (1024 ^ 2)))
      (round2 (wall_clock env (S (S (S (clock_reads w))))
               - wall_clock env (S (S (clock_reads w)))))
      (round2 (Qc_of_Z (Z.of_N (rss_bytes env (S (rss_reads w))))
               / Qc_of_Z (1024 ^ 2)))
      s.
Proof.
  unfold reported, printing, report_of. cbn [stdout clock_reads rss_reads].
  by rewrite <- !app_assoc.
Qed.

Lemma main_ok_inv env args w w' :
  main env args w = (w', Ok tt) ->
  exists w1 s,
    provision env args w = (w1, Ok tt)
    /\ (dask_pipeline env (data_path args) (blocksize args) w1).2 = Ok s
    /\ w' = reported env s w1.
Proof.
  rewrite main_provision_benchmark. intros H.
  apply bind_ok_inv in H as (w1 & [] & Hprov & H).
  rewrite benchmark_run in H.
  destruct (pandas_pipeline _ w1).2 as [s1|e]; [|discriminate].
  destruct (dask_pipeline env _ _ w1).2 as [s|e] eqn:Hs; [|discriminate].
  exists w1, s. by injection H as <-.
Qed.

Lemma provision_beside env args w w1 r :
  provision env args w = (w1, r) ->
  clock_reads w1 = clock_reads w
  /\ rss_reads w1 = rss_reads w
  /\ stdout w1 = stdout w.
Proof.
  intros H.
  pose proof (preserves_provision clock_reads env args) as Hc.
  pose proof (preserves_provision rss_reads env args) as Hr.
  pose proof (preserves_provision stdout env args) as Ho.
  specialize (Hc ltac:(done) ltac:(done) w).
  specialize (Hr ltac:(done) ltac:(done) w).
  specialize (Ho ltac:(done) ltac:(done) w).
  by rewrite H in Hc, Hr, Ho.
Qed.

(** C7, as the code has it.  A successful run prints, after what was
    printed before, the title, one table of exactly two rows, "Pandas" then
    "Dask", the second title and the partitioned pipeline's mapping.  Each
    time field is the difference of two successive readings of
    [time.time()] rounded to two decimals; each memory field is not
    negative; a time field is not negative when the clock's second reading
    is not earlier than its first. *)
Theorem report_table env args w w' :
  main env args w = (w', Ok tt) ->
  let c := clock_reads w in
  let time1 := round2 (wall_clock env (S c) - wall_clock env c) in
  let time2 :=
    round2 (wall_clock env (S (S (S c))) - wall_clock env (S (S c))) in
  exists mem1 mem2 s,
    stdout w' = stdout w ++ report_of time1 mem1 time2 mem2 s
    /\ (0 <= mem1)%Qc /\ (0 <= mem2)%Qc
    /\ ((wall_clock env c <= wall_clock env (S c))%Qc -> (0 <= time1)%Qc)
    /\ ((wall_clock env (S (S c)) <= wall_clock env (S (S (S c))))%Qc ->
        (0 <= time2)%Qc).
Proof.
  intros Hmain c time1 time2.
  apply main_ok_inv in Hmain as (w1 & s & Hprov & _ & ->).
  apply provision_beside in Hprov as (Hc & Hr & Ho).
  rewrite reported_stdout, Hc, Hr, Ho.
  eexists _, _, s. split; [done|].
  split; [apply megabytes_nonneg|]. split; [apply megabytes_nonneg|].
  split; apply elapsed_nonneg.
Qed.

Lemma tiny_frame_dataset : dataset tiny_frame.
Proof. split; set_solver. Qed.

Lemma tiny_run_set_back :
  main clock_set_back tiny_args tiny_world
  = (reported clock_set_back
       (blocks_groupby_mean [keep_positive (rows_of tiny_frame)]) tiny_world,
     Ok tt).
Proof.
  rewrite main_provision_benchmark.
  rewrite (bind_ok _ _ _ tiny_world tt) by (by apply provision_existing).
  rewrite benchmark_run.
  rewrite (pandas_pipeline_ok _ _ tiny_frame)
    by (done || apply tiny_frame_dataset).
  by rewrite (dask_pipeline_ok _ _ _ _ tiny_frame one_block)
    by (done || apply tiny_frame_dataset).
Qed.

(** C7, as the specification states it, fails: with a wall clock that is
    set back during the run, a successful run prints a negative execution
    time. *)
Lemma clock_set_back_negative_time :
  ~ report_fields_nonneg clock_set_back tiny_args tiny_world.
Proof.
  intros H.
  destruct (H _ tiny_run_set_back
              [mkMeasurement "Pandas" (Qc_of_Z (-1)) (Qc_of_Z 50);
               mkMeasurement "Dask" (Qc_of_Z (-1)) (Qc_of_Z 50)])
    as [_ Hall].
  - rewrite reported_stdout. unfold report_of.
    apply list_elem_of_In. right. left. f_equal.
    repeat f_equal; apply Qc_is_canon; by vm_compute.
  - apply Forall_cons_1 in Hall as [[Hneg _] _].
    by vm_compute in Hneg.
Qed.


(** ** Failures *)



(** ** [os.makedirs] never runs out of fuel *)

Lemma is_empty_length s : is_empty s = false -> (0 < String.length s)%nat.
Proof. destruct s; [done|]. simpl. lia. Qed.

Lemma cut_last_sep_length p :
  (String.length (cut_last_sep p).1 + String.length (cut_last_sep p).2
   = String.length p)%nat.
Proof.
  induction p as [|c p IH]; [done|]. cbn [cut_last_sep].
  destruct (has_sep p).
  - destruct (cut_last_sep p) as [h t]. simpl in *. lia.
  - destruct (is_sep c); simpl; lia.
Qed.

Lemma rstrip_sep_length s :
  (String.length (rstrip_sep s) <= String.length s)%nat.
Proof.
  induction s as [|c s IH]; [done|]. cbn [rstrip_sep].
  destruct (rstrip_sep s); [destruct (is_sep c)|]; simpl in *; lia.
Qed.

Lemma path_split_length p :
  (String.length (path_split p).1 + String.length (path_split p).2
   <= String.length p)%nat.
Proof.
  unfold path_split. pose proof (cut_last_sep_length p) as H.
  destruct (cut_last_sep p) as [h t]. cbn [fst snd] in *.
  destruct (negb (is_empty h) && negb (all_sep h)); [|lia].
  pose proof (rstrip_sep_length h). lia.
Qed.

Lemma makedirs_fuel_stable n m name exist_ok w :
  (String.length name < n)%nat -> (String.length name < m)%nat ->
  makedirs_fuel n name exist_ok w = makedirs_fuel m name exist_ok w.
Proof.
  revert m name w. induction n as [|n IH]; intros m name w Hn Hm; [lia|].
  destruct m as [|m]; [lia|]. cbn [makedirs_fuel].
  pose proof (path_split_length name) as Hsplit.
  destruct (path_split name) as [head tail]. cbn [fst snd] in Hsplit.
  assert (Hhead : forall head' tail',
    (if is_empty tail then path_split head else (head, tail)) = (head', tail') ->
    is_empty tail' = false -> (String.length head' < String.length name)%nat).
  { intros head' tail' Heq Htail'. apply is_empty_length in Htail'.
    destruct (is_empty tail).
    - pose proof (path_split_length head) as H2. rewrite Heq in H2.
      cbn [fst snd] in H2. lia.
    - injection Heq as <- <-. lia. }
  destruct (if is_empty tail then path_split head else (head, tail))
    as [head' tail'].
  specialize (Hhead head' tail' eq_refl).
  unfold bind, gets, try_except. cbn beta iota.
  destruct (negb (is_empty head') && negb (is_empty tail')
            && negb (path_exists (fs w) head')) eqn:Hcond; [|done].
  apply andb_prop in Hcond as [[_ Htail']%andb_prop _].
  apply negb_true_iff in Htail'. specialize (Hhead Htail').
  by rewrite (IH m head' w) by lia.
Qed.

(** Any fuel above the length of the name gives the result of
    [makedirs]. *)
Lemma makedirs_fuel_enough n name exist_ok w :
  (String.length name < n)%nat ->
  makedirs_fuel n name exist_ok w = makedirs name exist_ok w.
Proof. intros H. apply makedirs_fuel_stable; [done|lia]. Qed.

Lemma generate_dataset_makedirs_raise env path R w w1 e :
  makedirs (dirname path) true w = (w1, Raise e) ->
  generate_dataset env path R w = (w1, Raise e).
Proof. intros H. unfold generate_dataset. by apply bind_raise. Qed.

(** ** Rounding *)

Ltac qc_Q :=
  unfold scaled, within, Qcle, Qclt, Qcminus, Qcplus, Qcopp, Qcmult, Q2Qc in *;
  cbn [this] in *; rewrite ?Qred_correct in *.

Lemma scaled_trans lo1 hi1 lo2 hi2 x y z :
  scaled lo1 hi1 x y -> scaled lo2 hi2 y z ->
  (0 <= lo2)%Qc -> (0 <= hi2)%Qc ->
  scaled (lo2 * lo1) (hi2 * hi1) x z.
Proof.
  intros [H1 H2] [H3 H4] Hlo Hhi. split.
  - apply Qcle_trans with (lo2 * y)%Qc; [|done].
    rewrite <- Qcmult_assoc. by apply Qcmult_le_mono_nonneg_l.
  - apply Qcle_trans with (hi2 * y)%Qc; [done|].
    rewrite <- Qcmult_assoc. by apply Qcmult_le_mono_nonneg_l.
Qed.

Lemma scaled_mult_r lo hi x y k :
  scaled lo hi x y -> (0 <= k)%Qc -> scaled lo hi (x * k) (y * k).
Proof.
  intros [H1 H2] Hk. split.
  - rewrite Qcmult_assoc. by apply Qcmult_le_mono_nonneg_r.
  - rewrite Qcmult_assoc. by apply Qcmult_le_mono_nonneg_r.
Qed.

Lemma scaled_pos lo hi x y :
  scaled lo hi x y -> (0 < lo)%Qc -> (0 < x)%Qc -> (0 < y)%Qc.
Proof.
  intros [H1 _] Hlo Hx. apply Qclt_le_trans with (lo * x)%Qc; [|done].
  by apply Qcmult_pos_pos.
Qed.

Lemma scaled_sum lo hi xs ys :
  Forall2 (scaled lo hi) xs ys -> scaled lo hi (Qc_sum xs) (Qc_sum ys).
Proof.
  induction 1 as [|x y xs ys [H1 H2] _ [IH1 IH2]].
  - unfold scaled, Qc_sum. simpl. rewrite !Qcmult_0_r. split; apply Qcle_refl.
  - change (Qc_sum (x :: xs)) with (x + Qc_sum xs)%Qc.
    change (Qc_sum (y :: ys)) with (y + Qc_sum ys)%Qc.
    split; rewrite Qcmult_plus_distr_r; by apply Qcplus_le_compat.
Qed.


Lemma scaled_weaken lo hi lo' hi' x y :
  scaled lo hi x y -> (0 <= x)%Qc -> (lo' <= lo)%Qc -> (hi <= hi')%Qc ->
  scaled lo' hi' x y.
Proof.
  intros [H1 H2] Hx Hlo Hhi. split.
  - apply Qcle_trans with (lo * x)%Qc; [|done].
    by apply Qcmult_le_mono_nonneg_r.
  - apply Qcle_trans with (hi * x)%Qc; [done|].
    by apply Qcmult_le_mono_nonneg_r.
Qed.

(** Three roundings of at most 1e-7 each, on either side, stay within the
    tolerance of 1e-6. *)
Lemma tolerance_bounds (eps : Qc) :
  (0 <= eps)%Qc -> (eps <= unit_error)%Qc ->
  ((1 - tolerance) * ((1 + eps) * ((1 + eps) * (1 + eps)))
     <= (1 - eps) * ((1 - eps) * (1 - eps)))%Qc
  /\ ((1 + eps) * ((1 + eps) * (1 + eps))
      <= (1 + tolerance) * ((1 - eps) * ((1 - eps) * (1 - eps))))%Qc
  /\ ((1 - eps) * ((1 - eps) * (1 - eps)) <= (1 - eps) * (1 - eps))%Qc
  /\ ((1 + eps) * (1 + eps) <= (1 + eps) * ((1 + eps) * (1 + eps)))%Qc
  /\ (0 < (1 - eps) * ((1 - eps) * (1 - eps)))%Qc.
Proof.
  intros H0 H1. unfold tolerance, unit_error in *. qc_Q.
  set (e := this eps) in *. clearbody e. repeat split; nra.
Qed.

Lemma close_of_scaled (tol lo hi mu a b : Qc) :
  (0 <= tol)%Qc -> (tol <= 1)%Qc -> (0 < lo)%Qc -> (0 < mu)%Qc ->
  ((1 - tol) * hi <= lo)%Qc -> (hi <= (1 + tol) * lo)%Qc ->
  scaled lo hi mu a -> scaled lo hi mu b ->
  close_to tol a b.
Proof.
  intros Ht0 Ht1 Hlo Hmu Hl Hh [Ha1 Ha2] [Hb1 Hb2].
  assert (Hpos : (0 < a)%Qc).
  { apply Qclt_le_trans with (lo * mu)%Qc; [|done]. by apply Qcmult_pos_pos. }
  unfold close_to. rewrite (Qcabs_pos a) by (by apply Qclt_le_weak).
  apply Qcabs_diff_Qcle_condition.
  assert (Htol : (0 <= 1 - tol)%Qc) by (qc_Q; lra).
  assert (Htol' : (0 <= 1 + tol)%Qc) by (qc_Q; lra).
  split.
  - apply Qcle_trans with (lo * mu)%Qc; [|exact Hb1].
    apply Qcle_trans with ((1 - tol) * hi * mu)%Qc.
    + replace (a - tol * a)%Qc with ((1 - tol) * a)%Qc by ring.
      rewrite <- Qcmult_assoc.
      apply Qcmult_le_mono_nonneg_l; [exact Htol|exact Ha2].
    + apply Qcmult_le_mono_nonneg_r; [by apply Qclt_le_weak|exact Hl].
  - apply Qcle_trans with (hi * mu)%Qc; [exact Hb2|].
    apply Qcle_trans with ((1 + tol) * lo * mu)%Qc.
    + apply Qcmult_le_mono_nonneg_r; [by apply Qclt_le_weak|exact Hh].
    + replace (a + tol * a)%Qc with ((1 + tol) * a)%Qc by ring.
      rewrite <- Qcmult_assoc.
      apply Qcmult_le_mono_nonneg_l; [exact Htol'|exact Ha1].
Qed.

(** Two numbers that are each the same positive number up to three
    roundings are within the tolerance of each other. *)
Lemma close_of_three_roundings (eps mu a b : Qc) :
  (0 <= eps)%Qc -> (eps <= unit_error)%Qc -> (0 < mu)%Qc ->
  scaled ((1 - eps) * ((1 - eps) * (1 - eps)))
         ((1 + eps) * ((1 + eps) * (1 + eps))) mu a ->
  scaled ((1 - eps) * ((1 - eps) * (1 - eps)))
         ((1 + eps) * ((1 + eps) * (1 + eps))) mu b ->
  close_to tolerance a b.
Proof.
  intros H0 H1 Hmu Ha Hb.
  destruct (tolerance_bounds eps H0 H1) as (Hl & Hh & _ & _ & Hlo).
  apply (close_of_scaled tolerance ((1 - eps) * ((1 - eps) * (1 - eps)))
           ((1 + eps) * ((1 + eps) * (1 + eps))) mu a b);
    [by vm_compute|by vm_compute|done..].
Qed.

Lemma two_roundings_three (eps mu a : Qc) :
  (0 <= eps)%Qc -> (eps <= unit_error)%Qc -> (0 < mu)%Qc ->
  scaled ((1 - eps) * (1 - eps)) ((1 + eps) * (1 + eps)) mu a ->
  scaled ((1 - eps) * ((1 - eps) * (1 - eps)))
         ((1 + eps) * ((1 + eps) * (1 + eps))) mu a.
Proof.
  intros H0 H1 Hmu Ha.
  destruct (tolerance_bounds eps H0 H1) as (_ & _ & Hl & Hh & _).
  apply (scaled_weaken _ _ _ _ _ _ Ha); [by apply Qclt_le_weak|done|done].
Qed.

Lemma Qc_sum_cons x l : Qc_sum (x :: l) = (x + Qc_sum l)%Qc.
Proof. reflexivity. Qed.

Lemma Qc_of_nat_S n : Qc_of_nat (S n) = (Qc_of_nat n + 1)%Qc.
Proof.
  unfold Qc_of_nat. by rewrite Nat2Z.inj_succ, <- Z.add_1_r, Z2Qc_inj_add.
Qed.

Lemma Qc_of_nat_pos n : (0 < n)%nat -> (0 < Qc_of_nat n)%Qc.
Proof.
  intros H. unfold Qc_of_nat. rewrite <- Z2Qc_inj_0.
  apply (proj1 (Z2Qc_inj_lt 0 _)). lia.
Qed.

Lemma Qc_sum_nonneg l : Forall (fun v => (0 <= v)%Qc) l -> (0 <= Qc_sum l)%Qc.
Proof.
  induction 1 as [|x l Hx Hl IH]; [done|].
  rewrite Qc_sum_cons. by apply Qcplus_nonneg_nonneg.
Qed.

Lemma Qc_sum_pos l :
  l <> [] -> Forall (fun v => (0 < v)%Qc) l -> (0 < Qc_sum l)%Qc.
Proof.
  intros Hne Hl. destruct Hl as [|x l Hx Hl]; [done|].
  rewrite Qc_sum_cons. apply Qcplus_pos_nonneg; [done|].
  apply Qc_sum_nonneg. eapply Forall_impl; [done|].
  intros v Hv. by apply Qclt_le_weak.
Qed.

Lemma mean_pos l :
  l <> [] -> Forall (fun v => (0 < v)%Qc) l -> (0 < mean l)%Qc.
Proof.
  intros Hne Hl. unfold mean, Qcdiv.
  apply Qcmult_pos_pos; [by apply Qc_sum_pos|].
  apply Qcinv_pos, Qc_of_nat_pos. destruct l; [done|]. simpl. lia.
Qed.

Lemma length_pos {A} (l : list A) : l <> [] -> (0 < length l)%nat.
Proof. destruct l; [done|]. simpl. lia. Qed.

Lemma one_minus_pos (eps : Qc) : (eps < 1)%Qc -> (0 < 1 - eps)%Qc.
Proof. intros H. qc_Q. lra. Qed.

Lemma one_plus_nonneg (eps : Qc) : (0 <= eps)%Qc -> (0 <= 1 + eps)%Qc.
Proof. intros H. qc_Q. lra. Qed.


Lemma unit_error_lt_1 (eps : Qc) : (eps <= unit_error)%Qc -> (eps < 1)%Qc.
Proof. intros H. eapply Qcle_lt_trans; [done|]. reflexivity. Qed.

(** The mean of one array: two roundings. *)
Lemma mean_on_scaled num eps vs :
  mean_accurate eps num vs -> (0 <= eps)%Qc -> (eps < 1)%Qc -> vs <> [] ->
  scaled ((1 - eps) * (1 - eps)) ((1 + eps) * (1 + eps))
    (mean vs) (mean_on num vs).
Proof.
  intros Hacc H0 H1 Hne. destruct (Hacc Hne) as [Ha Hm].
  pose proof (one_minus_pos eps H1) as Hlo.
  pose proof (one_plus_nonneg eps H0) as Hhi.
  unfold mean.
  apply (scaled_trans _ _ _ _ _ (array_sum num vs / Qc_of_nat (length vs))%Qc);
    [|done|by apply Qclt_le_weak|done].
  apply scaled_mult_r; [done|].
  by apply Qclt_le_weak, Qcinv_pos, Qc_of_nat_pos, length_pos.
Qed.

Lemma Qc_sum_concat (gs : list (list Qc)) :
  Qc_sum (Qc_sum <$> gs) = Qc_sum (concat gs).
Proof.
  induction gs as [|g gs IH]; [done|].
  rewrite fmap_cons, Qc_sum_cons. cbn [concat]. by rewrite Qc_sum_app, IH.
Qed.

Lemma sum_list_length_concat {A} (gs : list (list A)) :
  sum_list (length <$> gs) = length (concat gs).
Proof.
  induction gs as [|g gs IH]; [done|].
  rewrite fmap_cons. cbn [sum_list concat]. by rewrite length_app, IH.
Qed.


(** The mean over blocks: three roundings. *)
Lemma blocks_mean_scaled num eps (gs : list (list Qc)) :
  blocks_mean_accurate eps num gs -> (0 <= eps)%Qc -> (eps < 1)%Qc ->
  gs <> [] -> Forall (fun vs => vs <> []) gs ->
  scaled ((1 - eps) * ((1 - eps) * (1 - eps)))
         ((1 + eps) * ((1 + eps) * (1 + eps)))
    (mean (concat gs))
    (divide num (combine_sums num (array_sum num <$> gs))
       (sum_list (length <$> gs))).
Proof.
  intros Hacc H0 H1 Hne Hgs. destruct (Hacc Hne) as (Hsum & Hc & Hm).
  cbv zeta in Hc, Hm.
  pose proof (one_minus_pos eps H1) as Hlo.
  pose proof (one_plus_nonneg eps H0) as Hhi.
  assert (Hparts : Forall2 (scaled (1 - eps) (1 + eps))
                     (Qc_sum <$> gs) (array_sum num <$> gs)).
  { by apply Forall2_fmap, Forall_Forall2_diag. }
  pose proof (scaled_sum _ _ _ _ Hparts) as Hs. rewrite Qc_sum_concat in Hs.
  pose proof (scaled_trans _ _ _ _ _ _ _ Hs Hc (Qclt_le_weak _ _ Hlo) Hhi) as Ht.
  assert (Hcat : concat gs <> []).
  { destruct gs as [|g gs]; [done|]. apply Forall_cons_1 in Hgs as [Hg _].
    cbn [concat]. by destruct g. }
  unfold mean. rewrite <- sum_list_length_concat.
  apply (scaled_trans _ _ _ _ _
           (combine_sums num (array_sum num <$> gs)
            / Qc_of_nat (sum_list (length <$> gs)))%Qc);
    [|done|by apply Qclt_le_weak|done].
  apply scaled_mult_r; [done|].
  apply Qclt_le_weak, Qcinv_pos, Qc_of_nat_pos.
  rewrite sum_list_length_concat. by apply length_pos.
Qed.

(** An arithmetic that is accurate everywhere is accurate on the
    operations of the two pipelines. *)
Lemma accurate_mean eps num vs :
  accurate eps num -> (eps < 1)%Qc -> Forall (fun v => (0 < v)%Qc) vs ->
  mean_accurate eps num vs.
Proof.
  intros (Hsum & _ & Hdiv) H1 Hpos Hne.
  pose proof (Hsum vs Hne Hpos) as Ha. split; [done|].
  apply Hdiv; [|by apply length_pos].
  apply (scaled_pos _ _ _ _ Ha); [by apply one_minus_pos|by apply Qc_sum_pos].
Qed.

Lemma accurate_blocks_mean eps num gs :
  accurate eps num -> (eps < 1)%Qc ->
  Forall (fun vs => vs <> [] /\ Forall (fun v => (0 < v)%Qc) vs) gs ->
  blocks_mean_accurate eps num gs.
Proof.
  intros (Hsum & Hcomb & Hdiv) H1 Hgs Hne. cbv zeta.
  pose proof (one_minus_pos eps H1) as Hlo.
  assert (Hall : Forall (fun g => within eps (Qc_sum g) (array_sum num g)) gs).
  { eapply Forall_impl; [exact Hgs|]. intros vs [Hv Hp]. by apply Hsum. }
  assert (Hppos : Forall (fun v => (0 < v)%Qc) (array_sum num <$> gs)).
  { apply Forall_fmap. eapply Forall_impl; [exact Hgs|]. intros vs [Hv Hp].
    simpl.
    apply (scaled_pos _ _ _ _ (Hsum vs Hv Hp)); [done|]. by apply Qc_sum_pos. }
  assert (Hpne : array_sum num <$> gs <> []) by (by destruct gs).
  pose proof (Hcomb _ Hpne Hppos) as Hc.
  split; [done|]. split; [done|].
  apply Hdiv.
  - apply (scaled_pos _ _ _ _ Hc); [done|]. by apply Qc_sum_pos.
  - destruct gs as [|g gs]; [done|]. apply Forall_cons_1 in Hgs as [[Hg _] _].
    rewrite fmap_cons. cbn [sum_list]. pose proof (length_pos g Hg). unfold id. lia.
Qed.

(** The arithmetic of [main] and the arithmetic of the concrete runs
    below. *)
Lemma accurate_exact : accurate 0 exact.
Proof.
  assert (H : forall x : Qc, within 0 x x).
  { intros x. unfold within. split.
    - replace ((1 - 0) * x)%Qc with x by ring. apply Qcle_refl.
    - replace ((1 + 0) * x)%Qc with x by ring. apply Qcle_refl. }
  repeat split; intros; apply H.
Qed.

Lemma accurate_skewed : accurate (Q2Qc (1 # 100000000)) skewed.
Proof.
  assert (Hup : forall x : Qc, (0 <= x)%Qc ->
            within (Q2Qc (1 # 100000000)) x (x * (1 + Q2Qc (1 # 100000000)))).
  { intros x Hx. qc_Q. set (q := this x) in *. clearbody q. split; nra. }
  assert (Hdown : forall x : Qc, (0 <= x)%Qc ->
            within (Q2Qc (1 # 100000000)) x (x * (1 - Q2Qc (1 # 100000000)))).
  { intros x Hx. qc_Q. set (q := this x) in *. clearbody q. split; nra. }
  assert (Hid : forall x : Qc, (0 <= x)%Qc ->
            within (Q2Qc (1 # 100000000)) x x).
  { intros x Hx. qc_Q. set (q := this x) in *. clearbody q. split; nra. }
  split; [|split].
  - intros l Hne Hpos. apply Hup. by apply Qclt_le_weak, Qc_sum_pos.
  - intros l Hne Hpos. apply Hdown. by apply Qclt_le_weak, Qc_sum_pos.
  - intros x n Hx Hn. apply Hid. apply Qclt_le_weak.
    apply Qcmult_pos_pos; [done|]. by apply Qcinv_pos, Qc_of_nat_pos.
Qed.

(** ** The groups of the blocks *)

Lemma partials_block_groups num blocks c :
  partials num blocks c
  = (fun vs => (array_sum num vs, length vs)) <$> block_groups blocks c.
Proof.
  induction blocks as [|b blocks IH]; [done|].
  unfold partials, block_groups in *. rewrite fmap_cons.
  cbn [omap list_omap].
  fold (omap (fun b => chunk_stats_on num b !! c) blocks).
  rewrite chunk_stats_on_lookup, filter_cons, IH.
  destruct (values_by na_label b c) as [|v vs]; by case_decide.
Qed.

Lemma concat_block_groups blocks c :
  concat (block_groups blocks c) = values_by na_label (concat blocks) c.
Proof.
  induction blocks as [|b blocks IH]; [done|].
  unfold block_groups in *. rewrite fmap_cons, filter_cons.
  cbn [concat]. rewrite values_by_app, <- IH.
  destruct (values_by na_label b c) as [|v vs]; by case_decide.
Qed.

Lemma block_groups_nonempty blocks c :
  Forall (fun vs => vs <> []) (block_groups blocks c).
Proof.
  apply Forall_forall. intros vs Hvs.
  by apply list_elem_of_filter in Hvs as [? _].
Qed.

Lemma blocks_groupby_mean_on_groups num blocks c :
  blocks_groupby_mean_on num blocks !! c
  = (fun gs => divide num (combine_sums num (array_sum num <$> gs))
                 (sum_list (length <$> gs)))
      <$> nonempty (block_groups blocks c).
Proof.
  rewrite blocks_groupby_mean_on_lookup, partials_block_groups.
  assert (Hg : forall ps : list (Qc * nat),
             ps <> [] -> gathered ps = Some (ps.*1, sum_list ps.*2))
    by (by intros [|p ps]).
  destruct (block_groups blocks c) as [|g gs]; [done|].
  rewrite Hg by done. by rewrite <- !list_fmap_compose.
Qed.


(** ** Rows without a category *)

(** Rows without a category are absent from the eager groups, and under
    one label of their own in the groups of the blocks. *)
Lemma values_by_na_label rows c :
  c <> "<NA>"%string -> values_by na_label rows c = values_of rows c.
Proof.
  intros Hc. unfold values_of.
  induction rows as [|r rows IH]; [done|].
  unfold dropna in *. rewrite filter_cons, values_by_cons.
  destruct (is_na (category r)) eqn:Hna.
  - assert (Hl : na_label r = "<NA>"%string)
      by (unfold na_label; by rewrite Hna).
    rewrite Hl, (decide_False (P := "<NA>"%string = c)) by done.
    by rewrite (decide_False (P := true = false)) by done.
  - assert (Hl : na_label r = category r)
      by (unfold na_label; by rewrite Hna).
    rewrite Hl, (decide_True (P := false = false)) by done.
    rewrite values_by_cons. by rewrite IH.
Qed.

Lemma counted_values_na_label rows c :
  c <> "<NA>"%string ->
  values_by na_label (keep_positive rows) c = counted_values rows c.
Proof.
  intros Hc. by rewrite values_by_na_label, values_of_keep_positive.
Qed.

Lemma counted_values_positive rows c :
  Forall (fun v => (0 < v)%Qc) (counted_values rows c).
Proof.
  apply Forall_forall. intros v Hv.
  by apply elem_of_counted_values in Hv as (r & _ & _ & _ & Hpos & <-).
Qed.

Lemma mean_arithmetic_mean vs : vs <> [] -> arithmetic_mean vs (mean vs).
Proof.
  intros Hne. split; [done|]. unfold mean. fold (Qc_sum vs).
  field. intros H0.
  pose proof (Qc_of_nat_pos (length vs) (length_pos vs Hne)) as Hpos.
  rewrite H0 in Hpos. by apply Qclt_not_eq in Hpos.
Qed.

(** ** What a pipeline holds under one key *)

Lemma eager_mean_scaled num eps rows c :
  (0 <= eps)%Qc -> (eps < 1)%Qc ->
  mean_accurate eps num (counted_values rows c) ->
  match groupby_mean_on num (keep_positive rows) !! c with
  | Some m =>
      counted_values rows c <> []
      /\ scaled ((1 - eps) * (1 - eps)) ((1 + eps) * (1 + eps))
           (mean (counted_values rows c)) m
  | None => counted_values rows c = []
  end.
Proof.
  intros H0 H1 Hacc. rewrite groupby_mean_on_keep_positive.
  pose proof (counted_values_positive rows c) as Hpos.
  destruct (counted_values rows c) as [|v vs] eqn:Hvs; [done|].
  cbn [nonempty fmap option_fmap option_map]. split; [done|].
  by apply (mean_on_scaled num eps).
Qed.

Lemma blocks_mean_key_scaled num eps blocks c :
  (0 <= eps)%Qc -> (eps < 1)%Qc ->
  blocks_mean_accurate eps num (block_groups blocks c) ->
  match blocks_groupby_mean_on num blocks !! c with
  | Some m =>
      values_by na_label (concat blocks) c <> []
      /\ scaled ((1 - eps) * ((1 - eps) * (1 - eps)))
                ((1 + eps) * ((1 + eps) * (1 + eps)))
           (mean (values_by na_label (concat blocks) c)) m
  | None => values_by na_label (concat blocks) c = []
  end.
Proof.
  intros H0 H1 Hacc. rewrite blocks_groupby_mean_on_groups.
  rewrite <- concat_block_groups.
  pose proof (block_groups_nonempty blocks c) as Hne.
  destruct (block_groups blocks c) as [|g gs] eqn:Hg; [done|].
  cbn [nonempty fmap option_fmap option_map]. split.
  - apply Forall_cons_1 in Hne as [Hgne _]. cbn [concat]. by destruct g.
  - by apply (blocks_mean_scaled num eps).
Qed.

Lemma Qc_sum_Permutation l1 l2 : l1 ≡ₚ l2 -> Qc_sum l1 = Qc_sum l2.
Proof.
  induction 1 as [|x l1 l2 _ IH|x y l|l1 l2 l3 _ IH1 _ IH2].
  - done.
  - by rewrite !Qc_sum_cons, IH.
  - rewrite !Qc_sum_cons. ring.
  - by rewrite IH1.
Qed.

Lemma mean_Permutation l1 l2 : l1 ≡ₚ l2 -> mean l1 = mean l2.
Proof.
  intros H. unfold mean.
  by rewrite (Qc_sum_Permutation _ _ H), (Permutation_length H).
Qed.

Lemma counted_values_Permutation rows1 rows2 c :
  rows1 ≡ₚ rows2 -> counted_values rows1 c ≡ₚ counted_values rows2 c.
Proof. intros H. unfold counted_values. by rewrite H. Qed.

Lemma values_by_Permutation key rows1 rows2 c :
  rows1 ≡ₚ rows2 -> values_by key rows1 c ≡ₚ values_by key rows2 c.
Proof. intros H. unfold values_by. by rewrite H. Qed.

Lemma Permutation_nil_iff {A} (l1 l2 : list A) :
  l1 ≡ₚ l2 -> l1 = [] <-> l2 = [].
Proof.
  intros H. split; intros ->.
  - by apply Permutation_nil_l in H.
  - by apply Permutation_nil_r in H.
Qed.

(** Two results for one key, each the mean of a rearrangement of the same
    positive values up to three roundings, agree within the tolerance. *)
Lemma agree_of_scaled eps (l1 l2 : list Qc) (o1 o2 : option Qc) :
  (0 <= eps)%Qc -> (eps <= unit_error)%Qc ->
  l1 ≡ₚ l2 -> Forall (fun v => (0 < v)%Qc) l1 ->
  match o1 with
  | Some m =>
      l1 <> []
      /\ scaled ((1 - eps) * ((1 - eps) * (1 - eps)))
                ((1 + eps) * ((1 + eps) * (1 + eps))) (mean l1) m
  | None => l1 = []
  end ->
  match o2 with
  | Some m =>
      l2 <> []
      /\ scaled ((1 - eps) * ((1 - eps) * (1 - eps)))
                ((1 + eps) * ((1 + eps) * (1 + eps))) (mean l2) m
  | None => l2 = []
  end ->
  match o1, o2 with
  | Some a, Some b => close_to tolerance a b
  | None, None => True
  | _, _ => False
  end.
Proof.
  intros H0 Hu Hp Hpos Hs1 Hs2.
  rewrite <- (mean_Permutation _ _ Hp) in Hs2.
  pose proof (Permutation_nil_iff _ _ Hp) as Hnil.
  destruct o1 as [m1|], o2 as [m2|].
  - destruct Hs1 as [Hne Hs1], Hs2 as [_ Hs2].
    apply (close_of_three_roundings eps (mean l1)); try done.
    by apply mean_pos.
  - destruct Hs1 as [Hne _]. by apply Hnil in Hs2.
  - destruct Hs2 as [Hne _]. by apply Hnil in Hs1.
  - done.
Qed.

Lemma eager_mean_scaled_three num eps rows c :
  (0 <= eps)%Qc -> (eps <= unit_error)%Qc ->
  mean_accurate eps num (counted_values rows c) ->
  match groupby_mean_on num (keep_positive rows) !! c with
  | Some m =>
      counted_values rows c <> []
      /\ scaled ((1 - eps) * ((1 - eps) * (1 - eps)))
                ((1 + eps) * ((1 + eps) * (1 + eps)))
           (mean (counted_values rows c)) m
  | None => counted_values rows c = []
  end.
Proof.
  intros H0 Hu Hacc.
  pose proof (eager_mean_scaled num eps rows c H0 (unit_error_lt_1 eps Hu) Hacc)
    as Hs.
  destruct (groupby_mean_on num (keep_positive rows) !! c) as [m|]; [|done].
  destruct Hs as [Hne Hs]. split; [done|].
  apply two_roundings_three; try done.
  apply mean_pos; [done|apply counted_values_positive].
Qed.

Lemma values_by_keep_positive key rows c :
  Forall (fun v => (0 < v)%Qc) (values_by key (keep_positive rows) c).
Proof.
  apply Forall_forall. intros v Hv. unfold values_by in Hv.
  apply list_elem_of_fmap in Hv as (r & -> & Hr).
  apply list_elem_of_filter in Hr as [_ Hr].
  by apply list_elem_of_filter in Hr as [Hpos _].
Qed.

(** ** The two pipelines and the mean *)

(** C2 does not hold as stated: a row whose category cell reads as a
    missing value belongs to no group of the eager pipeline. *)
Lemma eager_mean_claim_fails : ~ eager_mean_claim "na.csv" na_world na_frame.
Proof.
  intros H. destruct H as (s & Hs & Hc).
  - reflexivity.
  - by apply generated_dataset.
  - rewrite (pandas_pipeline_ok _ _ na_frame) in Hs;
      [|reflexivity|by apply generated_dataset].
    injection Hs as <-. specialize (Hc "NA"%string).
    unfold groupby_mean in Hc. rewrite groupby_mean_on_keep_positive in Hc.
    vm_compute in Hc. discriminate.
Qed.

(** C2, amended.  On a dataset file the eager pipeline returns a mapping
    that has a key for exactly the categories with a counted row, a row
    whose category cell is not read as a missing value and whose value is
    strictly greater than 0; the key maps to the arithmetic mean of [value]
    over exactly the counted rows of the category, up to the two roundings
    of the float sum and division that compute it: a factor between
    (1 - eps)^2 and (1 + eps)^2 when each of the two is accurate to the
    relative error [eps], and the mean itself when the arithmetic is
    exact. *)
Theorem eager_pipeline_mean num eps path w df :
  (0 <= eps)%Qc -> (eps < 1)%Qc ->
  read_csv (fs w) path = Ok df -> dataset df ->
  (forall c, mean_accurate eps num (counted_values (rows_of df) c)) ->
  exists s : Series,
    pandas_pipeline_on num path w = (w, Ok s)
    /\ forall c,
         match s !! c with
         | Some m =>
             exists mu : Qc,
               arithmetic_mean (counted_values (rows_of df) c) mu
               /\ scaled ((1 - eps) * (1 - eps)) ((1 + eps) * (1 + eps)) mu m
         | None => counted_values (rows_of df) c = []
         end.
Proof.
  intros H0 H1 Hread Hdf Hnum. eexists. split; [by apply pandas_pipeline_on_ok|].
  intros c. rewrite groupby_mean_on_keep_positive.
  pose proof (counted_values_positive (rows_of df) c) as Hpos.
  specialize (Hnum c).
  destruct (counted_values (rows_of df) c) as [|v vs] eqn:Hvs; [done|].
  cbn [nonempty fmap option_fmap option_map].
  exists (mean (v :: vs)). split; [by apply mean_arithmetic_mean|].
  by apply (mean_on_scaled num eps).
Qed.

(** C1 does not hold as stated: the rows whose category cell reads as a
    missing value are under a key of the partitioned mapping only; the
    partitioned pipeline raises on a file without rows; and it raises when
    the block size is not one. *)
Lemma pipelines_agree_claim_fails :
  ~ pipelines_agree_claim steady "na.csv" "1MB" na_world na_frame
  /\ ~ pipelines_agree_claim steady "h.csv" "1MB" header_world header_frame
  /\ ~ pipelines_agree_claim steady "d.csv" "abc" tiny_world tiny_frame.
Proof.
  split; [|split]; intros H.
  - destruct H as (s1 & s2 & H1 & H2 & Hc);
      [reflexivity|by apply generated_dataset|].
    rewrite (pandas_pipeline_ok _ _ na_frame) in H1;
      [|reflexivity|by apply generated_dataset].
    rewrite (dask_pipeline_ok steady _ _ _ na_frame cut_after_first) in H2;
      [|reflexivity|reflexivity|by apply generated_dataset|done].
    injection H1 as <-. injection H2 as <-.
    specialize (Hc "<NA>"%string). unfold agree_at, groupby_mean in Hc.
    rewrite groupby_mean_on_keep_positive in Hc.
    unfold blocks_groupby_mean in Hc.
    rewrite blocks_groupby_mean_on_groups in Hc.
    vm_compute in Hc. done.
  - destruct H as (s1 & s2 & H1 & H2 & Hc);
      [reflexivity|by apply generated_dataset|].
    assert (Hr : (dask_pipeline steady "h.csv" "1MB" header_world).2
                 = Raise NotImplementedError) by reflexivity.
    rewrite H2 in Hr. discriminate.
  - destruct H as (s1 & s2 & H1 & H2 & Hc);
      [reflexivity|by apply generated_dataset|].
    assert (Hr : (dask_pipeline steady "d.csv" "abc" tiny_world).2
                 = Raise ValueError) by reflexivity.
    rewrite H2 in Hr. discriminate.
Qed.

(** C1, amended.  On a dataset file with at least one row, read with a
    block size the partitioned reader accepts and cut into blocks that hold
    the rows of the file in order, both pipelines return a mapping, and the
    two mappings agree on every category other than "<NA>": either both
    lack it, or both have it with means within 1e-6, relative to the eager
    one.  The float operations behind the means (the sum of the values of a
    category and its division by their number in the eager pipeline; the
    sum in each block, the sum of these sums and its division by the count
    in the partitioned one) are each accurate to a relative error [eps] of
    at most 1e-7. *)
Theorem pipelines_agree env num eps path b w df cut :
  (0 <= eps)%Qc -> (eps <= unit_error)%Qc ->
  read_blocks env b = Ok cut ->
  read_csv (fs w) path = Ok df -> dataset df ->
  rows_of df <> [] ->
  concat (cut (rows_of df)) = rows_of df ->
  (forall c, mean_accurate eps num (counted_values (rows_of df) c)) ->
  (forall c, blocks_mean_accurate eps num
               (block_groups (keep_positive <$> cut (rows_of df)) c)) ->
  exists s1 s2 : Series,
    pandas_pipeline_on num path w = (w, Ok s1)
    /\ dask_pipeline_on env num path b w = (w, Ok s2)
    /\ forall c, c <> "<NA>"%string -> agree_at tolerance s1 s2 c.
Proof.
  intros H0 Hu Hcut Hread Hdf Hrows Hcat Heager Hblocks.
  pose proof (unit_error_lt_1 eps Hu) as H1.
  do 2 eexists. split; [by apply pandas_pipeline_on_ok|].
  split; [by eapply dask_pipeline_on_ok|].
  intros c Hc.
  pose proof (eager_mean_scaled_three num eps _ c H0 Hu (Heager c)) as Hs1.
  pose proof (blocks_mean_key_scaled num eps _ c H0 H1 (Hblocks c)) as Hs2.
  rewrite concat_keep_positive, Hcat, counted_values_na_label in Hs2 by done.
  apply (agree_of_scaled eps (counted_values (rows_of df) c)
           (counted_values (rows_of df) c)); try done.
  apply counted_values_positive.
Qed.

(** ** Concrete runs *)

Lemma block_groups_positive blocks c :
  Forall (fun vs => vs <> [] /\ Forall (fun v => (0 < v)%Qc) vs)
    (block_groups (keep_positive <$> blocks) c).
Proof.
  apply Forall_forall. intros vs Hvs. unfold block_groups in Hvs.
  apply list_elem_of_filter in Hvs as [Hne Hvs]. split; [done|].
  apply list_elem_of_fmap in Hvs as (b & -> & Hb).
  apply list_elem_of_fmap in Hb as (b' & -> & _).
  apply Forall_forall. intros v Hv. unfold values_by in Hv.
  apply list_elem_of_fmap in Hv as (r & -> & Hr).
  apply list_elem_of_filter in Hr as [_ Hr].
  by apply list_elem_of_filter in Hr as [Hpos _].
Qed.

Lemma pipelines_agree_witness :
  exists s1 s2 : Series,
    pandas_pipeline_on skewed "d.csv" tiny_world = (tiny_world, Ok s1)
    /\ dask_pipeline_on steady skewed "d.csv" "1MB" tiny_world
       = (tiny_world, Ok s2)
    /\ forall c, c <> "<NA>"%string -> agree_at tolerance s1 s2 c.
Proof.
  apply (pipelines_agree steady skewed (Q2Qc (1 # 100000000)) "d.csv" "1MB"
           tiny_world tiny_frame cut_after_first).
  - by vm_compute.
  - by vm_compute.
  - reflexivity.
  - reflexivity.
  - exact tiny_frame_dataset.
  - discriminate.
  - reflexivity.
  - intros c. apply accurate_mean;
      [exact accurate_skewed|reflexivity|apply counted_values_positive].
  - intros c. apply accurate_blocks_mean;
      [exact accurate_skewed|reflexivity|apply block_groups_positive].
Defined.

Lemma eager_pipeline_mean_witness :
  exists s : Series,
    pandas_pipeline_on skewed "d.csv" tiny_world = (tiny_world, Ok s)
    /\ forall c,
         match s !! c with
         | Some m =>
             exists mu : Qc,
               arithmetic_mean (counted_values (rows_of tiny_frame) c) mu
               /\ scaled
                    ((1 - Q2Qc (1 # 100000000)) * (1 - Q2Qc (1 # 100000000)))
                    ((1 + Q2Qc (1 # 100000000)) * (1 + Q2Qc (1 # 100000000)))
                    mu m
         | None => counted_values (rows_of tiny_frame) c = []
         end.
Proof.
  apply (eager_pipeline_mean skewed (Q2Qc (1 # 100000000)) "d.csv"
           tiny_world tiny_frame).
  - by vm_compute.
  - reflexivity.
  - reflexivity.
  - exact tiny_frame_dataset.
  - intros c. apply accurate_mean;
      [exact accurate_skewed|reflexivity|apply counted_values_positive].
Defined.

Lemma eager_pipeline_drops_empty_groups_witness :
  exists s : Series,
    pandas_pipeline "d.csv" tiny_world = (tiny_world, Ok s)
    /\ (forall c,
          (forall r, r ∈ rows_of tiny_frame -> category r = c ->
                     ~ positive_value r) ->
          s !! c = None)
    /\ ((forall r, r ∈ rows_of tiny_frame -> ~ positive_value r) -> s = ∅).
Proof.
  apply (eager_pipeline_drops_empty_groups "d.csv" tiny_world tiny_frame).
  - reflexivity.
  - exact tiny_frame_dataset.
Defined.

Lemma existing_dataset_untouched_witness :
  path_exists (fs busy_world) (data_path tiny_args) = true
  /\ fs (main steady tiny_args busy_world).1 = fs busy_world
  /\ rng_draws (main steady tiny_args busy_world).1 = rng_draws busy_world.
Proof.
  split; [reflexivity|].
  apply (existing_dataset_untouched steady tiny_args busy_world).
  reflexivity.
Defined.

Lemma bare_path_provisioning_fails_witness :
  dirname (data_path bare_args) = EmptyString
  /\ generate_dataset steady (data_path bare_args) (rows bare_args) empty_world
     = (empty_world, Raise FileNotFoundError)
  /\ main steady bare_args empty_world = (empty_world, Raise FileNotFoundError).
Proof.
  apply (bare_path_provisioning_fails steady bare_args empty_world);
    reflexivity.
Defined.

Lemma pipelines_deterministic_witness :
  (pandas_pipeline "d.csv" tiny_world).2 = (pandas_pipeline "d.csv" busy_world).2
  /\ (dask_pipeline steady "d.csv" "1MB" tiny_world).2
     = (dask_pipeline steady "d.csv" "1MB" busy_world).2.
Proof.
  apply (pipelines_deterministic steady steady "d.csv" "1MB"
           tiny_world busy_world); reflexivity.
Defined.

Lemma generated_file_line_count_witness :
  exists w' df,
    generate_dataset steady "data/large_dataset.csv" 3 empty_world = (w', Ok tt)
    /\ read_csv (fs w') "data/large_dataset.csv" = Ok df
    /\ Z.of_nat (length (rows_of df)) = 3
    /\ Z.of_nat (length (csv_lines df)) = 3 + 1.
Proof.
  apply (generated_file_line_count steady "data/large_dataset.csv" 3
           empty_world
           (makedirs (dirname "data/large_dataset.csv") true empty_world).1).
  - lia.
  - vm_compute. reflexivity.
  - vm_compute. reflexivity.
Defined.

Lemma generated_rows_in_range_witness :
  exists df,
    read_csv
      (fs (generate_dataset steady "data/large_dataset.csv" 3 empty_world).1)
      "data/large_dataset.csv" = Ok df
    /\ Forall (fun r => category r ∈ ["A"; "B"; "C"; "D"]%string
                        /\ 1 <= user_id r < 100000) (rows_of df).
Proof.
  apply (generated_rows_in_range steady "data/large_dataset.csv" 3
           empty_world).
  vm_compute. reflexivity.
Defined.

Lemma report_table_witness :
  exists mem1 mem2 s,
    stdout (main steady small_args empty_world).1
    = [] ++ report_of (round2 (wall_clock steady 1 - wall_clock steady 0)) mem1
              (round2 (wall_clock steady 3 - wall_clock steady 2)) mem2 s
    /\ (0 <= mem1)%Qc /\ (0 <= mem2)%Qc
    /\ ((wall_clock steady 0 <= wall_clock steady 1)%Qc ->
        (0 <= round2 (wall_clock steady 1 - wall_clock steady 0))%Qc)
    /\ ((wall_clock steady 2 <= wall_clock steady 3)%Qc ->
        (0 <= round2 (wall_clock steady 3 - wall_clock steady 2))%Qc).
Proof.
  apply (report_table steady small_args empty_world
           (main steady small_args empty_world).1).
  vm_compute. reflexivity.
Defined.



(** * Further properties of the code *)

(** ** What the pipelines return *)

Lemma Qc_sum_le_bound hi l :
  Forall (fun v => (v <= hi)%Qc) l ->
  (Qc_sum l <= hi * Qc_of_nat (length l))%Qc.
Proof.
  induction 1 as [|x l Hx Hl IH].
  - cbn [length]. change (Qc_of_nat 0) with (Qc_of_Z 0).
    rewrite Z2Qc_inj_0, Qcmult_0_r. apply Qcle_refl.
  - rewrite Qc_sum_cons. cbn [length]. rewrite Qc_of_nat_S.
    replace (hi * (Qc_of_nat (length l) + 1))%Qc
      with (hi + hi * Qc_of_nat (length l))%Qc by ring.
    by apply Qcplus_le_compat.
Qed.

Lemma Qc_sum_ge_bound lo l :
  Forall (fun v => (lo <= v)%Qc) l ->
  (lo * Qc_of_nat (length l) <= Qc_sum l)%Qc.
Proof.
  induction 1 as [|x l Hx Hl IH].
  - cbn [length]. change (Qc_of_nat 0) with (Qc_of_Z 0).
    rewrite Z2Qc_inj_0, Qcmult_0_r. apply Qcle_refl.
  - rewrite Qc_sum_cons. cbn [length]. rewrite Qc_of_nat_S.
    replace (lo * (Qc_of_nat (length l) + 1))%Qc
      with (lo + lo * Qc_of_nat (length l))%Qc by ring.
    by apply Qcplus_le_compat.
Qed.

Lemma mean_between lo hi l :
  l <> [] -> Forall (fun v => (lo <= v /\ v <= hi)%Qc) l ->
  (lo <= mean l /\ mean l <= hi)%Qc.
Proof.
  intros Hne Hl.
  assert (Hn : (0 < Qc_of_nat (length l))%Qc).
  { apply Qc_of_nat_pos. destruct l; [done|]. simpl. lia. }
  assert (Hn0 : Qc_of_nat (length l) <> 0%Qc).
  { intros H0. rewrite H0 in Hn. by apply (Qclt_not_eq 0 0) in Hn. }
  assert (Hinv : (0 <= / Qc_of_nat (length l))%Qc)
    by (by apply Qclt_le_weak, Qcinv_pos).
  unfold mean, Qcdiv. split.
  - apply (Qcle_trans _ (lo * Qc_of_nat (length l) * / Qc_of_nat (length l))).
    + replace (lo * Qc_of_nat (length l) * / Qc_of_nat (length l))%Qc
        with lo by (by field).
      apply Qcle_refl.
    + apply Qcmult_le_mono_nonneg_r; [done|].
      apply Qc_sum_ge_bound. eapply Forall_impl; [done|]. by intros v [? ?].
  - apply (Qcle_trans _ (hi * Qc_of_nat (length l) * / Qc_of_nat (length l))).
    + apply Qcmult_le_mono_nonneg_r; [done|].
      apply Qc_sum_le_bound. eapply Forall_impl; [done|]. by intros v [? ?].
    + replace (hi * Qc_of_nat (length l) * / Qc_of_nat (length l))%Qc
        with hi by (by field).
      apply Qcle_refl.
Qed.

(** X1. The mapping of the eager pipeline has a key for exactly the
    categories that have a row whose category cell is not a missing value
    and whose value is strictly positive; every mean in it is strictly
    positive when the float sum and division behind it are accurate to a
    relative error below 1. *)
Theorem eager_pipeline_keys_and_sign num eps path w df :
  (0 <= eps)%Qc -> (eps < 1)%Qc ->
  read_csv (fs w) path = Ok df -> dataset df ->
  (forall c, mean_accurate eps num (counted_values (rows_of df) c)) ->
  exists s : Series,
    pandas_pipeline_on num path w = (w, Ok s)
    /\ (forall c,
          is_Some (s !! c)
          <-> exists r, r ∈ rows_of df /\ category r = c
                        /\ is_na (category r) = false /\ positive_value r)
    /\ (forall c m, s !! c = Some m -> (0 < m)%Qc).
Proof.
  intros H0 H1 Hread Hdf Hacc. eexists.
  split; [by apply pandas_pipeline_on_ok|]. split.
  - intros c. rewrite groupby_mean_on_keep_positive. split.
    + destruct (counted_values (rows_of df) c) as [|v vs] eqn:Hsel;
        [by intros [? ?]|]. intros _.
      assert (Hv : v ∈ counted_values (rows_of df) c)
        by (rewrite Hsel; left).
      apply elem_of_counted_values in Hv as (r & ? & ? & ? & ? & _).
      by exists r.
    + intros (r & Hr & Hc & Hna & Hpos).
      assert (Hv : value r ∈ counted_values (rows_of df) c)
        by (apply elem_of_counted_values; by exists r).
      destruct (counted_values (rows_of df) c); [by inversion Hv|done].
  - intros c m Hm.
    pose proof (eager_mean_scaled num eps (rows_of df) c H0 H1 (Hacc c)) as Hs.
    rewrite Hm in Hs. destruct Hs as [Hne Hs].
    apply (scaled_pos _ _ _ _ Hs).
    + pose proof (one_minus_pos eps H1). by apply Qcmult_pos_pos.
    + apply mean_pos; [done|apply counted_values_positive].
Qed.

(** X2. A mean in the mapping of the eager pipeline lies between any two
    bounds on the counted values of its category, up to the two roundings
    of the float sum and division. *)
Theorem eager_pipeline_mean_between num eps path w df lo hi c s m :
  (0 <= eps)%Qc -> (eps < 1)%Qc ->
  read_csv (fs w) path = Ok df -> dataset df ->
  mean_accurate eps num (counted_values (rows_of df) c) ->
  (forall r, r ∈ rows_of df -> category r = c -> positive_value r ->
             (lo <= value r /\ value r <= hi)%Qc) ->
  pandas_pipeline_on num path w = (w, Ok s) ->
  s !! c = Some m ->
  ((1 - eps) * (1 - eps) * lo <= m /\ m <= (1 + eps) * (1 + eps) * hi)%Qc.
Proof.
  intros H0 H1 Hread Hdf Hacc Hbound.
  rewrite (pandas_pipeline_on_ok _ _ _ df) by done. intros [= <-] Hm.
  pose proof (eager_mean_scaled num eps (rows_of df) c H0 H1 Hacc) as Hs.
  rewrite Hm in Hs. destruct Hs as [Hne [Hs1 Hs2]].
  destruct (mean_between lo hi (counted_values (rows_of df) c)) as [Hlo Hhi];
    [done| |].
  { apply Forall_forall.
    intros v (r & Hr & Hc & _ & Hpos & <-)%elem_of_counted_values.
    by apply Hbound. }
  pose proof (one_minus_pos eps H1) as Hl.
  pose proof (one_plus_nonneg eps H0) as Hh. split.
  - apply Qcle_trans with ((1 - eps) * (1 - eps)
                           * mean (counted_values (rows_of df) c))%Qc;
      [|done].
    apply Qcmult_le_mono_nonneg_l; [|done].
    by apply Qclt_le_weak, Qcmult_pos_pos.
  - apply Qcle_trans with ((1 + eps) * (1 + eps)
                           * mean (counted_values (rows_of df) c))%Qc;
      [done|].
    apply Qcmult_le_mono_nonneg_l; [|done].
    by apply Qcmult_nonneg_nonneg.
Qed.

(** ** The order of the rows and the place of the cuts *)

(** X3. The eager pipeline depends on the order of the rows through the
    rounding of its sums only: two dataset files whose rows are a
    rearrangement of each other give mappings with the same keys and with
    means within the tolerance of each other. *)
Theorem eager_pipeline_order_independent num eps path1 path2 w1 w2 df1 df2 :
  (0 <= eps)%Qc -> (eps <= unit_error)%Qc ->
  read_csv (fs w1) path1 = Ok df1 -> dataset df1 ->
  read_csv (fs w2) path2 = Ok df2 -> dataset df2 ->
  rows_of df1 ≡ₚ rows_of df2 ->
  (forall c, mean_accurate eps num (counted_values (rows_of df1) c)) ->
  (forall c, mean_accurate eps num (counted_values (rows_of df2) c)) ->
  exists s1 s2 : Series,
    pandas_pipeline_on num path1 w1 = (w1, Ok s1)
    /\ pandas_pipeline_on num path2 w2 = (w2, Ok s2)
    /\ series_close tolerance s1 s2.
Proof.
  intros H0 Hu Hread1 Hdf1 Hread2 Hdf2 Hperm Hacc1 Hacc2.
  do 2 eexists. split; [by apply pandas_pipeline_on_ok|].
  split; [by apply pandas_pipeline_on_ok|].
  intros c.
  pose proof (eager_mean_scaled_three num eps _ c H0 Hu (Hacc1 c)) as Hs1.
  pose proof (eager_mean_scaled_three num eps _ c H0 Hu (Hacc2 c)) as Hs2.
  apply (agree_of_scaled eps (counted_values (rows_of df1) c)
           (counted_values (rows_of df2) c)); try done.
  - by apply counted_values_Permutation.
  - apply counted_values_positive.
Qed.

(** X4. The partitioned pipeline depends on the block size through the
    rounding of its sums only: two readers that each hand over every row of
    the file exactly once, cut into blocks anywhere and in any order, give
    mappings with the same keys and with means within the tolerance of each
    other. *)
Theorem partitioned_pipeline_any_blocksize env1 env2 num eps b1 b2 path w df
    cut1 cut2 :
  (0 <= eps)%Qc -> (eps <= unit_error)%Qc ->
  read_blocks env1 b1 = Ok cut1 -> read_blocks env2 b2 = Ok cut2 ->
  read_csv (fs w) path = Ok df -> dataset df -> rows_of df <> [] ->
  concat (cut1 (rows_of df)) ≡ₚ rows_of df ->
  concat (cut2 (rows_of df)) ≡ₚ rows_of df ->
  (forall c, blocks_mean_accurate eps num
               (block_groups (keep_positive <$> cut1 (rows_of df)) c)) ->
  (forall c, blocks_mean_accurate eps num
               (block_groups (keep_positive <$> cut2 (rows_of df)) c)) ->
  exists s1 s2 : Series,
    dask_pipeline_on env1 num path b1 w = (w, Ok s1)
    /\ dask_pipeline_on env2 num path b2 w = (w, Ok s2)
    /\ series_close tolerance s1 s2.
Proof.
  intros H0 Hu Hcut1 Hcut2 Hread Hdf Hrows Hp1 Hp2 Hacc1 Hacc2.
  pose proof (unit_error_lt_1 eps Hu) as H1.
  do 2 eexists. split; [by eapply dask_pipeline_on_ok|].
  split; [by eapply dask_pipeline_on_ok|].
  intros c.
  pose proof (blocks_mean_key_scaled num eps _ c H0 H1 (Hacc1 c)) as Hs1.
  pose proof (blocks_mean_key_scaled num eps _ c H0 H1 (Hacc2 c)) as Hs2.
  rewrite concat_keep_positive in Hs1, Hs2.
  apply (agree_of_scaled eps
           (values_by na_label (keep_positive (concat (cut1 (rows_of df)))) c)
           (values_by na_label (keep_positive (concat (cut2 (rows_of df)))) c));
    try done.
  - apply values_by_Permutation. unfold keep_positive. by rewrite Hp1, Hp2.
  - apply values_by_keep_positive.
Qed.

(** ** Missing categories, no rows, no block size *)


(** ** What generation writes *)

Lemma DataFrame_lengths us cs vs ts df :
  DataFrame us cs vs ts = Ok df ->
  length cs = length us /\ length vs = length us /\ length ts = length us.
Proof.
  unfold DataFrame. case_bool_decide as Hlen; [|discriminate]. done.
Qed.

Lemma frame_rows_timestamps us cs vs ts :
  length cs = length us -> length vs = length us -> length ts = length us ->
  timestamp <$>
    zip_with (fun (p : Z * string) (q : Qc * Z) => mkRow p.1 p.2 q.1 q.2)
      (zip us cs) (zip vs ts)
  = ts.
Proof.
  revert cs vs ts. induction us as [|u us IH]; intros cs vs ts Hc Hv Ht.
  - by destruct ts.
  - destruct cs as [|c cs]; [done|]. destruct vs as [|v vs]; [done|].
    destruct ts as [|t ts]; [done|]. simpl in *.
    f_equal. apply IH; lia.
Qed.

Lemma date_range_ok start periods ts :
  date_range start periods = Ok ts ->
  0 <= periods
  /\ ts = (fun i => start + Z.of_nat i) <$> seq 0 (Z.to_nat periods).
Proof.
  unfold date_range. destruct (Z.ltb_spec periods 0); [discriminate|].
  by intros [= <-].
Qed.

Lemma read_csv_exists f p df : read_csv f p = Ok df -> path_exists f p = true.
Proof.
  unfold read_csv, path_exists. by destruct (stat f p).
Qed.

(** The file a successful generation leaves behind. *)
Lemma generate_dataset_file env path R w w' :
  generate_dataset env path R w = (w', Ok tt) ->
  exists df,
    read_csv (fs w') path = Ok df
    /\ columns df = ["user_id"; "category"; "value"; "timestamp"]%string
    /\ timestamp <$> rows_of df
       = (fun i => start_2023 + Z.of_nat i) <$> seq 0 (Z.to_nat R)
    /\ Forall (fun r => category r ∈ ["A"; "B"; "C"; "D"]%string
                        /\ 1 <= user_id r < 100000) (rows_of df).
Proof.
  intros H.
  apply generate_dataset_ok_inv in H
    as (w1 & w2 & w3 & w4 & us & cs & ns & ts & df
        & _ & Hus & Hcs & _ & Hts & Hdf & Hwrite).
  apply write_csv_ok_inv in Hwrite as [Hopen Hfs].
  apply date_range_ok in Hts as [_ Hts].
  pose proof (DataFrame_lengths _ _ _ _ _ Hdf) as (Hlc & Hlv & Hlt).
  apply DataFrame_ok in Hdf as (Hcols & _ & Hrows).
  exists df. split; [|split; [done|split]].
  - rewrite Hfs. by apply open_w_read_back.
  - by rewrite Hrows, frame_rows_timestamps.
  - rewrite Hrows.
    apply (frame_rows_Forall (fun u => 1 <= u < 100000)
             (fun c => c ∈ ["A"; "B"; "C"; "D"]%string)).
    + by eapply randint_range.
    + by eapply choice_member.
Qed.

(** X5. The file a successful generation writes starts with the header
    line user_id, category, value, timestamp, and the timestamps of its
    rows are 2023-01-01 00:00:00 and the seconds that follow it, one per
    row, in row order. *)
Theorem generated_header_and_timestamps env path R w w' :
  generate_dataset env path R w = (w', Ok tt) ->
  exists df,
    read_csv (fs w') path = Ok df
    /\ head (csv_lines df)
       = Some (CText <$> ["user_id"; "category"; "value"; "timestamp"]%string)
    /\ timestamp <$> rows_of df
       = (fun i => start_2023 + Z.of_nat i) <$> seq 0 (Z.to_nat R).
Proof.
  intros H. apply generate_dataset_file in H as (df & Hread & Hcols & Hts & _).
  exists df. split; [done|]. split; [|done].
  unfold csv_lines. by rewrite Hcols.
Qed.

(** X6. A negative row count with a missing dataset: the parent directory
    is made first, then [np.random.randint] refuses the negative size; the
    run ends with [ValueError], the directory stays, no file is written and
    nothing is drawn or printed. *)
Theorem negative_rows_leave_directory env args w w1 :
  path_exists (fs w) (data_path args) = false ->
  rows args < 0 ->
  makedirs (dirname (data_path args)) true w = (w1, Ok tt) ->
  generate_dataset env (data_path args) (rows args) w = (w1, Raise ValueError)
  /\ main env args w = (w1, Raise ValueError).
Proof.
  intros Hnew Hneg Hmk.
  assert (Hgen : generate_dataset env (data_path args) (rows args) w
                 = (w1, Raise ValueError)).
  { unfold generate_dataset. rewrite (bind_ok _ _ _ _ _ Hmk).
    apply bind_raise. unfold randint.
    by destruct (Z.ltb_spec (rows args) 0); [|lia]. }
  split; [done|]. rewrite main_provision_benchmark.
  apply bind_raise. by rewrite provision_missing.
Qed.

(** ** A run that generates its dataset *)

Lemma pandas_pipeline_result path w df :
  read_csv (fs w) path = Ok df -> dataset df ->
  (pandas_pipeline path w).2 = Ok (groupby_mean (keep_positive (rows_of df))).
Proof. intros Hread Hdf. by rewrite (pandas_pipeline_ok _ _ df). Qed.

Lemma dask_pipeline_result env path b w df cut :
  read_blocks env b = Ok cut ->
  read_csv (fs w) path = Ok df -> dataset df -> rows_of df <> [] ->
  (dask_pipeline env path b w).2
  = Ok (blocks_groupby_mean (keep_positive <$> cut (rows_of df))).
Proof.
  intros Hcut Hread Hdf Hrows. by rewrite (dask_pipeline_ok _ _ _ _ df cut).
Qed.

Lemma dask_pipeline_ok_inv env path b w df s :
  read_csv (fs w) path = Ok df ->
  (dask_pipeline env path b w).2 = Ok s ->
  exists cut,
    read_blocks env b = Ok cut
    /\ s = blocks_groupby_mean (keep_positive <$> cut (rows_of df)).
Proof.
  intros Hread. unfold dask_pipeline, dask_pipeline_on, bind, gets, lift.
  destruct (read_blocks env b) as [cut|e]; [|done]. cbn beta iota.
  rewrite Hread. cbn beta iota.
  destruct (has_column df "value"); [|done]. cbn beta iota.
  destruct (has_column df "category"); [|done]. cbn beta iota.
  destruct (rows_of df); [done|]. cbn. intros [= <-]. by exists cut.
Qed.


Lemma dask_pipeline_blocksize_raise env path b w e :
  read_blocks env b = Raise e -> dask_pipeline env path b w = (w, Raise e).
Proof.
  intros H. unfold dask_pipeline, dask_pipeline_on, bind, gets, lift.
  by rewrite H.
Qed.

(** The whole run on a world that holds a dataset after provisioning. *)
Lemma main_on_dataset env args w w1 df cut :
  provision env args w = (w1, Ok tt) ->
  read_blocks env (blocksize args) = Ok cut ->
  read_csv (fs w1) (data_path args) = Ok df -> dataset df ->
  rows_of df <> [] ->
  main env args w
  = (reported env
       (blocks_groupby_mean (keep_positive <$> cut (rows_of df))) w1,
     Ok tt).
Proof.
  intros Hprov Hcut Hread Hdf Hrows. rewrite main_provision_benchmark.
  rewrite (bind_ok _ _ _ _ _ Hprov), benchmark_run.
  by rewrite (pandas_pipeline_result _ _ df),
    (dask_pipeline_result _ _ _ _ df cut).
Qed.

Lemma generated_rows_length env path R w w' df :
  generate_dataset env path R w = (w', Ok tt) ->
  read_csv (fs w') path = Ok df ->
  length (rows_of df) = Z.to_nat R.
Proof.
  intros Hgen Hread.
  destruct (generate_dataset_file _ _ _ _ _ Hgen) as (df' & Hread' & _ & Hts & _).
  rewrite Hread in Hread'. injection Hread' as <-.
  apply (f_equal length) in Hts. by rewrite !length_fmap, length_seq in Hts.
Qed.

(** X7. When the dataset is missing and its generation succeeds, for a
    positive row count and a block size the partitioned reader accepts, the
    whole run succeeds: both pipelines accept the generated file and the
    report is printed. *)
Theorem fresh_dataset_run_succeeds env args w w1 cut :
  path_exists (fs w) (data_path args) = false ->
  0 < rows args ->
  generate_dataset env (data_path args) (rows args) w = (w1, Ok tt) ->
  read_blocks env (blocksize args) = Ok cut ->
  exists (w' : World) (s : Series),
    main env args w = (w', Ok tt)
    /\ fs w' = fs w1
    /\ last (stdout w') = Some (PSeries s).
Proof.
  intros Hnew Hpos Hgen Hcut.
  destruct (generate_dataset_file _ _ _ _ _ Hgen)
    as (df & Hread & Hcols & _ & _).
  pose proof (generated_dataset df Hcols) as Hdf.
  pose proof (generated_rows_length _ _ _ _ _ _ Hgen Hread) as Hlen.
  assert (Hrows : rows_of df <> []).
  { intros Hnil. rewrite Hnil in Hlen. simpl in Hlen. lia. }
  eexists _, _. split; [|split].
  - apply (main_on_dataset _ _ _ w1 df cut); [|done..].
    by rewrite provision_missing.
  - done.
  - rewrite reported_stdout. unfold report_of. by rewrite last_app.
Qed.


(** X16. A block size the partitioned reader cannot make a number of
    bytes of: on an existing dataset the run ends with the reader's
    exception, after the eager pipeline was run and measured, with nothing
    printed and no file changed. *)
Theorem unreadable_blocksize_fails env args w df e :
  read_csv (fs w) (data_path args) = Ok df -> dataset df ->
  read_blocks env (blocksize args) = Raise e ->
  main env args w = (tick (sampled (tick (tick w))), Raise e).
Proof.
  intros Hread Hdf Hcut. rewrite main_provision_benchmark.
  rewrite (bind_ok _ _ _ w tt)
    by (by eapply provision_existing, read_csv_exists).
  rewrite benchmark_run, (pandas_pipeline_result _ _ df) by done.
  by rewrite (dask_pipeline_blocksize_raise _ _ _ _ e).
Qed.

Lemma na_label_category r :
  category r ∈ ["A"; "B"; "C"; "D"]%string -> na_label r = category r.
Proof.
  intros H. unfold na_label.
  assert (Hna : is_na (category r) = false); [|by rewrite Hna].
  apply list_elem_of_In in H. simpl in H.
  destruct H as [<-|[<-|[<-|[<-|[]]]]]; reflexivity.
Qed.

(** X8. After a run that generated its dataset, the mapping printed at the
    end has no category other than "A", "B", "C", "D", provided the
    partitioned reader hands over rows of the file only. *)
Theorem fresh_dataset_printed_categories env args w w1 w' :
  path_exists (fs w) (data_path args) = false ->
  generate_dataset env (data_path args) (rows args) w = (w1, Ok tt) ->
  (forall cut, read_blocks env (blocksize args) = Ok cut ->
               forall rows, concat (cut rows) ⊆ rows) ->
  main env args w = (w', Ok tt) ->
  exists s : Series,
    last (stdout w') = Some (PSeries s)
    /\ forall c, is_Some (s !! c) -> c ∈ ["A"; "B"; "C"; "D"]%string.
Proof.
  intros Hnew Hgen Hcut Hmain.
  destruct (generate_dataset_file _ _ _ _ _ Hgen)
    as (df & Hread & Hcols & _ & Hrange).
  apply main_ok_inv in Hmain as (w0 & s & Hprov & Hs & ->).
  rewrite provision_missing, Hgen in Hprov by done.
  apply (f_equal fst) in Hprov. cbn [fst] in Hprov. subst w0.
  destruct (dask_pipeline_ok_inv _ _ _ _ df s Hread Hs) as (cut & Hb & Hseq).
  subst s.
  eexists. split.
  - rewrite reported_stdout. unfold report_of. by rewrite last_app.
  - intros c (r & Hr & <-)%blocks_groupby_mean_on_is_Some.
    rewrite concat_keep_positive in Hr.
    apply list_elem_of_filter in Hr as [_ Hr]. apply (Hcut cut Hb) in Hr.
    pose proof (proj1 (Forall_forall _ _) Hrange r Hr) as [Hcat _].
    by rewrite na_label_category.
Qed.

Lemma main_existing_fs env args w :
  path_exists (fs w) (data_path args) = true ->
  fs (main env args w).1 = fs w.
Proof.
  intros H. rewrite main_provision_benchmark.
  rewrite (bind_ok _ _ _ _ _ (provision_existing env args w H)).
  apply benchmark_preserves_fs.
Qed.

(** X9. Provisioning is idempotent across runs: after a run that generated
    the dataset, the path exists, and a second run on the same path, with
    any row count, block size and environment, changes no file. *)
Theorem second_run_keeps_generated_file env env2 args args2 w w1 :
  path_exists (fs w) (data_path args) = false ->
  generate_dataset env (data_path args) (rows args) w = (w1, Ok tt) ->
  data_path args2 = data_path args ->
  path_exists (fs (main env args w).1) (data_path args) = true
  /\ fs (main env2 args2 (main env args w).1).1 = fs (main env args w).1.
Proof.
  intros Hnew Hgen Hpath.
  destruct (generate_dataset_file _ _ _ _ _ Hgen) as (df & Hread & _).
  assert (Hfs : fs (main env args w).1 = fs w1).
  { rewrite main_provision_benchmark.
    rewrite (bind_ok _ _ _ w1 tt) by (by rewrite provision_missing).
    apply benchmark_preserves_fs. }
  assert (Hex : path_exists (fs (main env args w).1) (data_path args) = true).
  { rewrite Hfs. by eapply read_csv_exists. }
  split; [done|]. apply main_existing_fs. by rewrite Hpath.
Qed.

(** ** Runs that fail, runs that report *)

Lemma isdir_exists f p : isdir f p = true -> path_exists f p = true.
Proof. unfold isdir, path_exists. by destruct (stat f p) as [[|?]|]. Qed.

Lemma isdir_read_csv f p : isdir f p = true -> read_csv f p = Raise IsADirectoryError.
Proof. unfold isdir, read_csv. by destruct (stat f p) as [[|?]|]. Qed.

Lemma pandas_pipeline_read_raise path w e :
  read_csv (fs w) path = Raise e -> pandas_pipeline path w = (w, Raise e).
Proof.
  intros H. unfold pandas_pipeline, pandas_pipeline_on, bind, gets, lift.
  by rewrite H.
Qed.

Lemma pandas_pipeline_no_column path w df :
  read_csv (fs w) path = Ok df -> ~ dataset df ->
  pandas_pipeline path w = (w, Raise KeyError).
Proof.
  intros Hread Hdf. unfold pandas_pipeline, pandas_pipeline_on, bind, gets, lift.
  rewrite Hread.
  unfold has_column. cbn [columns].
  destruct (bool_decide_reflect ("value"%string ∈ columns df)) as [Hv|Hv];
    [|done].
  destruct (bool_decide_reflect ("category"%string ∈ columns df)) as [Hc|Hc];
    [|done].
  by destruct Hdf.
Qed.

(** X10. A data path that names an existing directory counts as present:
    nothing is generated, the eager pipeline fails on it, and the run ends
    with [IsADirectoryError] after one reading of the clock, the files as
    they were and nothing printed. *)
Theorem data_path_directory_fails env args w :
  isdir (fs w) (data_path args) = true ->
  main env args w = (tick w, Raise IsADirectoryError).
Proof.
  intros Hdir. rewrite main_provision_benchmark.
  rewrite (bind_ok _ _ _ w tt)
    by (by apply provision_existing, isdir_exists).
  rewrite benchmark_run.
  by rewrite (pandas_pipeline_read_raise _ _ IsADirectoryError)
    by (by apply isdir_read_csv).
Qed.

(** X11. An existing file whose header lacks the [value] or the [category]
    column: the eager pipeline raises [KeyError], and so does the run,
    before the partitioned pipeline is started and with nothing printed. *)
Theorem missing_column_fails env args w df :
  read_csv (fs w) (data_path args) = Ok df ->
  ~ dataset df ->
  pandas_pipeline (data_path args) w = (w, Raise KeyError)
  /\ main env args w = (tick w, Raise KeyError).
Proof.
  intros Hread Hdf.
  pose proof (pandas_pipeline_no_column _ _ _ Hread Hdf) as Hp.
  split; [done|]. rewrite main_provision_benchmark.
  rewrite (bind_ok _ _ _ w tt)
    by (by eapply provision_existing, read_csv_exists).
  rewrite benchmark_run. by rewrite Hp.
Qed.

(** X12. The report is printed whole or not at all: a run that ends with
    an exception has printed nothing. *)
Theorem failed_run_prints_nothing env args w w' e :
  main env args w = (w', Raise e) -> stdout w' = stdout w.
Proof.
  rewrite main_provision_benchmark. unfold bind at 1.
  destruct (provision env args w) as [w1 [[]|e1]] eqn:Hprov.
  - apply provision_beside in Hprov as (_ & _ & Ho).
    rewrite benchmark_run.
    destruct (pandas_pipeline _ w1).2; [|by intros [= <- _]].
    destruct (dask_pipeline env _ _ w1).2; [discriminate|].
    by intros [= <- _].
  - apply provision_beside in Hprov as (_ & _ & Ho). by intros [= <- _].
Qed.

Lemma reported_reads env s w :
  rss_reads (reported env s w) = S (S (rss_reads w))
  /\ clock_reads (reported env s w) = S (S (S (S (clock_reads w)))).
Proof. split; reflexivity. Qed.

(** X13. The memory fields of the report are absolute samples: after each
    pipeline the resident set size is read once and the field is that
    number of bytes divided by 1024 ** 2, rounded to two decimals; a
    successful run reads the clock four times and the memory counter
    twice. *)
Theorem report_memory_samples env args w w' :
  main env args w = (w', Ok tt) ->
  let r := rss_reads w in
  let mem1 :=
    round2 (Qc_of_Z (Z.of_N (rss_bytes env r)) / Qc_of_Z (1024 ^ 2)) in
  let mem2 :=
    round2 (Qc_of_Z (Z.of_N (rss_bytes env (S r))) / Qc_of_Z (1024 ^ 2)) in
  (exists time1 time2 s,
     stdout w' = stdout w ++ report_of time1 mem1 time2 mem2 s)
  /\ rss_reads w' = S (S r)
  /\ clock_reads w' = S (S (S (S (clock_reads w)))).
Proof.
  intros Hmain r mem1 mem2.
  apply main_ok_inv in Hmain as (w1 & s & Hprov & _ & ->).
  apply provision_beside in Hprov as (Hc & Hr & Ho).
  subst r mem1 mem2. split.
  - eexists _, _, s. rewrite reported_stdout, Hc, Hr, Ho. reflexivity.
  - destruct (reported_reads env s w1) as [-> ->]. by rewrite Hc, Hr.
Qed.

(** ** Concrete runs for the further properties *)

Lemma eager_pipeline_keys_and_sign_witness :
  exists s : Series,
    pandas_pipeline_on skewed "d.csv" tiny_world = (tiny_world, Ok s)
    /\ (forall c,
          is_Some (s !! c)
          <-> exists r, r ∈ rows_of tiny_frame /\ category r = c
                        /\ is_na (category r) = false /\ positive_value r)
    /\ (forall c m, s !! c = Some m -> (0 < m)%Qc).
Proof.
  apply (eager_pipeline_keys_and_sign skewed (Q2Qc (1 # 100000000)) "d.csv"
           tiny_world tiny_frame).
  - by vm_compute.
  - reflexivity.
  - reflexivity.
  - exact tiny_frame_dataset.
  - intros c. apply accurate_mean;
      [exact accurate_skewed|reflexivity|apply counted_values_positive].
Defined.

Lemma eager_pipeline_mean_between_witness :
  ((1 - Q2Qc (1 # 100000000)) * (1 - Q2Qc (1 # 100000000)) * Qc_of_Z 10
   <= mean_on skewed [Qc_of_Z 10; Qc_of_Z 30]
   /\ mean_on skewed [Qc_of_Z 10; Qc_of_Z 30]
      <= (1 + Q2Qc (1 # 100000000)) * (1 + Q2Qc (1 # 100000000))
         * Qc_of_Z 30)%Qc.
Proof.
  apply (eager_pipeline_mean_between skewed (Q2Qc (1 # 100000000)) "d.csv"
           tiny_world tiny_frame (Qc_of_Z 10) (Qc_of_Z 30) "A"
           (groupby_mean_on skewed (keep_positive (rows_of tiny_frame)))).
  - by vm_compute.
  - reflexivity.
  - reflexivity.
  - exact tiny_frame_dataset.
  - apply accurate_mean;
      [exact accurate_skewed|reflexivity|apply counted_values_positive].
  - intros r Hr Hc _. apply list_elem_of_In in Hr. simpl in Hr.
    destruct Hr as [<-|[<-|[<-|[]]]]; [|discriminate Hc|];
      split; vm_compute; discriminate.
  - reflexivity.
  - vm_compute. reflexivity.
Defined.

Lemma eager_pipeline_order_independent_witness :
  exists s1 s2 : Series,
    pandas_pipeline_on skewed "d.csv" tiny_world = (tiny_world, Ok s1)
    /\ pandas_pipeline_on skewed "s.csv" shuffled_world = (shuffled_world, Ok s2)
    /\ series_close tolerance s1 s2.
Proof.
  apply (eager_pipeline_order_independent skewed (Q2Qc (1 # 100000000))
           "d.csv" "s.csv" tiny_world shuffled_world tiny_frame
           shuffled_frame).
  - by vm_compute.
  - by vm_compute.
  - reflexivity.
  - exact tiny_frame_dataset.
  - reflexivity.
  - by apply generated_dataset.
  - apply perm_swap.
  - intros c. apply accurate_mean;
      [exact accurate_skewed|reflexivity|apply counted_values_positive].
  - intros c. apply accurate_mean;
      [exact accurate_skewed|reflexivity|apply counted_values_positive].
Defined.

Lemma partitioned_pipeline_any_blocksize_witness :
  exists s1 s2 : Series,
    dask_pipeline_on steady skewed "d.csv" "1MB" tiny_world
    = (tiny_world, Ok s1)
    /\ dask_pipeline_on clock_set_back skewed "d.csv" "64MB" tiny_world
       = (tiny_world, Ok s2)
    /\ series_close tolerance s1 s2.
Proof.
  apply (partitioned_pipeline_any_blocksize steady clock_set_back skewed
           (Q2Qc (1 # 100000000)) "1MB" "64MB" "d.csv" tiny_world tiny_frame
           cut_after_first one_block).
  - by vm_compute.
  - by vm_compute.
  - reflexivity.
  - reflexivity.
  - reflexivity.
  - exact tiny_frame_dataset.
  - discriminate.
  - reflexivity.
  - reflexivity.
  - intros c. apply accurate_blocks_mean;
      [exact accurate_skewed|reflexivity|apply block_groups_positive].
  - intros c. apply accurate_blocks_mean;
      [exact accurate_skewed|reflexivity|apply block_groups_positive].
Defined.


Lemma generated_header_and_timestamps_witness :
  exists df,
    read_csv
      (fs (generate_dataset steady "data/large_dataset.csv" 3 empty_world).1)
      "data/large_dataset.csv" = Ok df
    /\ head (csv_lines df)
       = Some (CText <$> ["user_id"; "category"; "value"; "timestamp"]%string)
    /\ timestamp <$> rows_of df
       = (fun i => start_2023 + Z.of_nat i) <$> seq 0 (Z.to_nat 3).
Proof.
  apply (generated_header_and_timestamps steady "data/large_dataset.csv" 3
           empty_world).
  vm_compute. reflexivity.
Defined.

Lemma negative_rows_leave_directory_witness :
  isdir (fs (makedirs "data" true empty_world).1) "data" = true
  /\ generate_dataset steady (data_path negative_args) (rows negative_args)
       empty_world
     = ((makedirs "data" true empty_world).1, Raise ValueError)
  /\ main steady negative_args empty_world
     = ((makedirs "data" true empty_world).1, Raise ValueError).
Proof.
  split; [vm_compute; reflexivity|].
  apply (negative_rows_leave_directory steady negative_args empty_world).
  - reflexivity.
  - reflexivity.
  - vm_compute. reflexivity.
Defined.

Lemma fresh_dataset_run_succeeds_witness :
  exists (w' : World) (s : Series),
    main steady small_args empty_world = (w', Ok tt)
    /\ fs w'
       = fs (generate_dataset steady (data_path small_args) (rows small_args)
               empty_world).1
    /\ last (stdout w') = Some (PSeries s).
Proof.
  apply (fresh_dataset_run_succeeds steady small_args empty_world
           (generate_dataset steady (data_path small_args) (rows small_args)
              empty_world).1
           cut_after_first).
  - reflexivity.
  - reflexivity.
  - vm_compute. reflexivity.
  - reflexivity.
Defined.


Lemma unreadable_blocksize_fails_witness :
  main steady unreadable_args tiny_world
  = (tick (sampled (tick (tick tiny_world))), Raise ValueError).
Proof.
  apply (unreadable_blocksize_fails steady unreadable_args tiny_world
           tiny_frame ValueError).
  - reflexivity.
  - exact tiny_frame_dataset.
  - reflexivity.
Defined.

Lemma fresh_dataset_printed_categories_witness :
  exists s : Series,
    last (stdout (main steady small_args empty_world).1) = Some (PSeries s)
    /\ forall c, is_Some (s !! c) -> c ∈ ["A"; "B"; "C"; "D"]%string.
Proof.
  apply (fresh_dataset_printed_categories steady small_args empty_world
           (generate_dataset steady (data_path small_args) (rows small_args)
              empty_world).1).
  - reflexivity.
  - vm_compute. reflexivity.
  - intros cut Hcut l x Hx.
    change (Ok cut_after_first = Ok cut) in Hcut. injection Hcut as <-.
    simpl in Hx. rewrite app_nil_r in Hx.
    destruct l as [|y l]; simpl in Hx; exact Hx.
  - vm_compute. reflexivity.
Defined.

Lemma second_run_keeps_generated_file_witness :
  path_exists (fs (main steady small_args empty_world).1)
    (data_path small_args) = true
  /\ fs (main clock_set_back rerun_args
           (main steady small_args empty_world).1).1
     = fs (main steady small_args empty_world).1.
Proof.
  apply (second_run_keeps_generated_file steady clock_set_back small_args
           rerun_args empty_world
           (generate_dataset steady (data_path small_args) (rows small_args)
              empty_world).1).
  - reflexivity.
  - vm_compute. reflexivity.
  - reflexivity.
Defined.

Lemma data_path_directory_fails_witness :
  main steady notes_args busy_world = (tick busy_world, Raise IsADirectoryError).
Proof.
  apply (data_path_directory_fails steady notes_args busy_world).
  reflexivity.
Defined.

Lemma missing_column_fails_witness :
  pandas_pipeline (data_path tiny_args) other_world
  = (other_world, Raise KeyError)
  /\ main steady tiny_args other_world = (tick other_world, Raise KeyError).
Proof.
  apply (missing_column_fails steady tiny_args other_world other_frame).
  - reflexivity.
  - intros [_ H]. apply list_elem_of_In in H. simpl in H.
    destruct H as [H|[H|[H|[]]]]; discriminate H.
Defined.

Lemma failed_run_prints_nothing_witness :
  stdout (tick busy_world) = stdout busy_world.
Proof.
  apply (failed_run_prints_nothing steady notes_args busy_world
           (tick busy_world) IsADirectoryError).
  vm_compute. reflexivity.
Defined.

Lemma report_memory_samples_witness :
  (exists time1 time2 s,
     stdout (main steady small_args empty_world).1
     = [] ++ report_of time1
               (round2 (Qc_of_Z (Z.of_N (rss_bytes steady 0))
                        / Qc_of_Z (1024 ^ 2)))
               time2
               (round2 (Qc_of_Z (Z.of_N (rss_bytes steady 1))
                        / Qc_of_Z (1024 ^ 2)))
               s)
  /\ rss_reads (main steady small_args empty_world).1 = 2%nat
  /\ clock_reads (main steady small_args empty_world).1 = 4%nat.
Proof.
  apply (report_memory_samples steady small_args empty_world
           (main steady small_args empty_world).1).
  vm_compute. reflexivity.
Defined.
